(** * JniHelper.hpp: a shallow embedding of the JNI convenience layer

    The header wraps calls into the Java runtime (made through [JNIEnv*]) with
    exception propagation, a scoped local-reference guard, string conversion,
    a per-type dispatch table and a variadic argument packer.

    The Java runtime is not part of the header.  It is modelled as a record of
    answer functions ([JavaVM]) over an arbitrary world type; every wrapper is
    a computation in a small monad that threads the runtime world and the
    thread's pending-exception slot, records the JNI functions it calls, and
    ends either with a value or with a thrown [JNIException]. *)

From Stdlib Require Import ZArith String Ascii Bool Lia.
From stdpp Require Import base list.

Local Open Scope string_scope.

(** ** Handles, values and cells *)

(** Every JNI handle is a pointer; [nullptr] is 0. *)
Definition jobject := Z.
Definition jclass := jobject.
Definition jstring := jobject.
Definition jthrowable := jobject.
Definition jmethodID := Z.
Definition jfieldID := Z.
Definition nullptr : Z := 0%Z.

(** [if (p)] on a pointer. *)
Definition nonnull (p : Z) : bool := negb (p =? nullptr)%Z.

(** The C++ types a template parameter [T] / [RetType] ranges over: [void], the
    eight primitive types, and reference types convertible to [jobject]
    ([jobject], [jstring], and others such as [jclass], [jthrowable],
    [jarray]). *)
Inductive CType :=
| Tvoid
| Tjboolean | Tjbyte | Tjchar | Tjshort | Tjint | Tjlong | Tjfloat | Tjdouble
| Tjobject | Tjstring
| Tjclass | Tjthrowable | Tjarray.

(** The [<Type>] infix of the runtime's function families
    ([CallIntMethodA], [GetStaticObjectField], ...). *)
Inductive Family :=
| FObject | FBoolean | FByte | FChar | FShort | FInt | FLong | FFloat | FDouble
| FVoid.

(** The [Static] infix. *)
Inductive Disp := Instance | Static.

Inductive MemberKind := Method | Field.

(** A typed result handed back to the caller.  Primitive values and handles
    are carried as integers (a [jfloat]/[jdouble] by its bit pattern: the
    header only copies them). *)
Inductive value :=
| Void
| Val (T : CType) (raw : Z).

(** [jvalue] is a C union; a cell remembers which member was written last.
    A cell of a fresh array holds an indeterminate value. *)
Inductive jvalue :=
| jv_z (v : Z) | jv_b (v : Z) | jv_c (v : Z) | jv_s (v : Z)
| jv_i (v : Z) | jv_j (v : Z) | jv_f (v : Z) | jv_d (v : Z)
| jv_l (ref : jobject)
| jv_indeterminate.

(** One call argument together with its static C++ type, i.e. the
    [setJValue] overload it selects. *)
Inductive Arg :=
| a_jboolean (v : Z) | a_jbyte (v : Z) | a_jchar (v : Z) | a_jshort (v : Z)
| a_jint (v : Z) | a_jlong (v : Z) | a_jfloat (v : Z) | a_jdouble (v : Z)
| a_nullptr
| a_jobject (h : jobject)
| a_ref (h : jobject)              (* any other type convertible to jobject *)
| a_string (s : string)            (* std::string *)
| a_cstr (p : option string).      (* const char*, None = nullptr *)

(** ** JNIException *)

Record JNIException := {
  what : string;
  getJavaException : jthrowable
}.

(** ** Calls into the runtime *)

Inductive Call :=
| EvExceptionCheck
| EvExceptionOccurred
| EvExceptionDescribe
| EvExceptionClear
| EvDeleteLocalRef (ref : jobject)
| EvNewStringUTF (bytes : string)
| EvGetStringUTFChars (jstr : jstring)
| EvReleaseStringUTFChars (jstr : jstring) (chars : string)
| EvFindClass (name : string)
| EvGetObjectClass (obj : jobject)
| EvGetID (d : Disp) (k : MemberKind) (cls : jclass) (name sig : string)
| EvGetField (d : Disp) (F : Family) (recv : jobject) (fid : jfieldID)
| EvCallMethod (d : Disp) (F : Family) (recv : jobject) (mid : jmethodID)
| EvCallMethodA (d : Disp) (F : Family) (recv : jobject) (mid : jmethodID)
                (args : list jvalue)
| EvNewObjectA (cls : jclass) (ctor : jmethodID) (args : list jvalue).

(** What the runtime answers to a call: its new world, the returned value and
    the exception it raised ([nullptr]: none). *)
Record Reply (W A : Type) := {
  now : W;
  ret_val : A;
  thrown : jthrowable
}.
Arguments now {W A} _.
Arguments ret_val {W A} _.
Arguments thrown {W A} _.

(** The runtime behind [JNIEnv*].  [DeleteLocalRef] and
    [ReleaseStringUTFChars] raise nothing. *)
Record JavaVM (W : Type) := {
  vm_FindClass : W -> string -> Reply W jclass;
  vm_GetObjectClass : W -> jobject -> Reply W jclass;
  vm_GetID : W -> Disp -> MemberKind -> jclass -> string -> string -> Reply W Z;
  vm_GetField : W -> Disp -> Family -> jobject -> jfieldID -> Reply W Z;
  vm_CallMethod : W -> Disp -> Family -> jobject -> jmethodID -> Reply W Z;
  vm_CallMethodA :
    W -> Disp -> Family -> jobject -> jmethodID -> list jvalue -> Reply W Z;
  vm_NewObjectA : W -> jclass -> jmethodID -> list jvalue -> Reply W jobject;
  vm_NewStringUTF : W -> string -> Reply W jstring;
  vm_GetStringUTFChars : W -> jstring -> Reply W (option string);
  vm_ReleaseStringUTFChars : W -> jstring -> string -> W;
  vm_DeleteLocalRef : W -> jobject -> W
}.
Arguments vm_FindClass {W} _.
Arguments vm_GetObjectClass {W} _.
Arguments vm_GetID {W} _.
Arguments vm_GetField {W} _.
Arguments vm_CallMethod {W} _.
Arguments vm_CallMethodA {W} _.
Arguments vm_NewObjectA {W} _.
Arguments vm_NewStringUTF {W} _.
Arguments vm_GetStringUTFChars {W} _.
Arguments vm_ReleaseStringUTFChars {W} _.
Arguments vm_DeleteLocalRef {W} _.

(** ** The monad of wrapper computations *)

(** The state behind one [JNIEnv*]: the runtime world and the thread's
    pending exception ([nullptr]: none pending). *)
Record St (W : Type) := {
  world : W;
  pending : jthrowable
}.
Arguments world {W} _.
Arguments pending {W} _.

Inductive Outcome (A : Type) :=
| Return (a : A)
| Throw (e : JNIException).
Arguments Return {A} _.
Arguments Throw {A} _.

Record Res (W A : Type) := {
  st : St W;
  trace : list Call;
  outcome : Outcome A
}.
Arguments st {W A} _.
Arguments trace {W A} _.
Arguments outcome {W A} _.

Definition M (W A : Type) : Type := St W -> Res W A.

Definition ret {W A} (a : A) : M W A :=
  fun s => {| st := s; trace := []; outcome := Return a |}.

Definition throw {W A} (e : JNIException) : M W A :=
  fun s => {| st := s; trace := []; outcome := Throw e |}.

Definition bind {W A B} (m : M W A) (k : A -> M W B) : M W B :=
  fun s =>
    let r := m s in
    match outcome r with
    | Return a =>
        let r' := k a (st r) in
        {| st := st r'; trace := trace r ++ trace r'; outcome := outcome r' |}
    | Throw e => {| st := st r; trace := trace r; outcome := Throw e |}
    end.

Notation "x <- m ;; k" := (bind m (fun x => k))
  (at level 100, m at next level, right associativity).
Notation "m ;; k" := (bind m (fun _ => k))
  (at level 100, right associativity).

(** ** std::string and C strings *)

(** What reading a [const char*] yields: the bytes before the first NUL.
    The runtime reads the argument of [NewStringUTF] this way, and so does
    the [std::string] constructor taking a [const char*]. *)
Fixpoint until_nul (bytes : string) : string :=
  match bytes with
  | EmptyString => EmptyString
  | String c rest =>
      if Ascii.eqb c Ascii.zero then EmptyString
      else String c (until_nul rest)
  end.

Fixpoint no_nul (s : string) : bool :=
  match s with
  | EmptyString => true
  | String c rest => negb (Ascii.eqb c Ascii.zero) && no_nul rest
  end.

(** ** The functions of [JNIEnv] *)

Module env.
Section Env.
Context {W : Type} (vm : JavaVM W).

(** A call that may raise: the raised exception becomes the pending one. *)
Definition foreign {A} (c : Call) (ask : W -> Reply W A) : M W A :=
  fun s =>
    let r := ask (world s) in
    {| st := {| world := now r;
                pending := if nonnull (thrown r) then thrown r
                           else pending s |};
       trace := [c];
       outcome := Return (ret_val r) |}.

(** A call that raises nothing. *)
Definition quiet (c : Call) (tell : W -> W) : M W unit :=
  fun s =>
    {| st := {| world := tell (world s); pending := pending s |};
       trace := [c];
       outcome := Return tt |}.

Definition ExceptionCheck : M W bool :=
  fun s => {| st := s; trace := [EvExceptionCheck];
              outcome := Return (nonnull (pending s)) |}.

Definition ExceptionOccurred : M W jthrowable :=
  fun s => {| st := s; trace := [EvExceptionOccurred];
              outcome := Return (pending s) |}.

(** Prints the exception; whatever it leaves pending is cleared by the
    [ExceptionClear] that follows it in the header. *)
Definition ExceptionDescribe : M W unit :=
  fun s => {| st := s; trace := [EvExceptionDescribe];
              outcome := Return tt |}.

Definition ExceptionClear : M W unit :=
  fun s => {| st := {| world := world s; pending := nullptr |};
              trace := [EvExceptionClear];
              outcome := Return tt |}.

Definition DeleteLocalRef (ref : jobject) : M W unit :=
  quiet (EvDeleteLocalRef ref) (fun w => vm_DeleteLocalRef vm w ref).

(** The runtime reads its [const char*] argument up to the first NUL. *)
Definition NewStringUTF (utf : string) : M W jstring :=
  foreign (EvNewStringUTF (until_nul utf))
          (fun w => vm_NewStringUTF vm w (until_nul utf)).

Definition GetStringUTFChars (jstr : jstring) : M W (option string) :=
  foreign (EvGetStringUTFChars jstr)
          (fun w => vm_GetStringUTFChars vm w jstr).

Definition ReleaseStringUTFChars (jstr : jstring) (chars : string)
  : M W unit :=
  quiet (EvReleaseStringUTFChars jstr chars)
        (fun w => vm_ReleaseStringUTFChars vm w jstr chars).

Definition FindClass (name : string) : M W jclass :=
  foreign (EvFindClass name) (fun w => vm_FindClass vm w name).

Definition GetObjectClass (obj : jobject) : M W jclass :=
  foreign (EvGetObjectClass obj) (fun w => vm_GetObjectClass vm w obj).

(** [GetMethodID], [GetStaticMethodID], [GetFieldID], [GetStaticFieldID]. *)
Definition GetID (d : Disp) (k : MemberKind) (cls : jclass)
           (name sig : string) : M W Z :=
  foreign (EvGetID d k cls name sig)
          (fun w => vm_GetID vm w d k cls name sig).

(** [Get<Type>Field], [GetStatic<Type>Field]. *)
Definition GetField (d : Disp) (F : Family) (recv : jobject)
           (fid : jfieldID) : M W Z :=
  foreign (EvGetField d F recv fid)
          (fun w => vm_GetField vm w d F recv fid).

(** [Call<Type>Method], [CallStatic<Type>Method] with no further
    arguments. *)
Definition CallMethod (d : Disp) (F : Family) (recv : jobject)
           (mid : jmethodID) : M W Z :=
  foreign (EvCallMethod d F recv mid)
          (fun w => vm_CallMethod vm w d F recv mid).

(** [Call<Type>MethodA], [CallStatic<Type>MethodA]. *)
Definition CallMethodA (d : Disp) (F : Family) (recv : jobject)
           (mid : jmethodID) (args : list jvalue) : M W Z :=
  foreign (EvCallMethodA d F recv mid args)
          (fun w => vm_CallMethodA vm w d F recv mid args).

Definition NewObjectA (cls : jclass) (ctor : jmethodID)
           (args : list jvalue) : M W jobject :=
  foreign (EvNewObjectA cls ctor args)
          (fun w => vm_NewObjectA vm w cls ctor args).
End Env.
End env.

(** ** The header: namespace [jni] *)

Module jni.
Section Jni.
Context {W : Type} (vm : JavaVM W).

(** [JNI_CHECK_EXCEPTION(env)]. *)
Definition JNI_CHECK_EXCEPTION : M W unit :=
  b <- env.ExceptionCheck;;
  if b then
    exception <- env.ExceptionOccurred;;
    env.ExceptionDescribe;;
    env.ExceptionClear;;
    throw {| what := "JNI exception occurred"; getJavaException := exception |}
  else ret tt.

(** *** ScopedLocalRef *)

(** The guard's [env_] is the ambient context; [ref_] is its only mutable
    member. *)
Record ScopedLocalRef := { ref_ : jobject }.

Definition ScopedLocalRef_new (ref : jobject) : ScopedLocalRef :=
  {| ref_ := ref |}.

(** [~ScopedLocalRef()]. *)
Definition ScopedLocalRef_destroy (g : ScopedLocalRef) : M W unit :=
  if nonnull (ref_ g) then env.DeleteLocalRef vm (ref_ g) else ret tt.

Definition ScopedLocalRef_get (g : ScopedLocalRef) : jobject := ref_ g.

(** [release()]: the returned handle and the guard afterwards. *)
Definition ScopedLocalRef_release (g : ScopedLocalRef)
  : jobject * ScopedLocalRef :=
  let temp := ref_ g in (temp, {| ref_ := nullptr |}).

(** A block that declares [ScopedLocalRef<jclass> clsRef(env, cls)] and never
    calls [release] on it: the destructor runs when the block is left, by
    [return] or by a thrown exception alike. *)
Definition scoped {A} (cls : jclass) (body : M W A) : M W A :=
  fun s =>
    let r := body s in
    let d := ScopedLocalRef_destroy (ScopedLocalRef_new cls) (st r) in
    {| st := st d; trace := trace r ++ trace d; outcome := outcome r |}.

(** *** String conversion *)

Definition JStringToString (jstr : jstring) : M W string :=
  if negb (nonnull jstr) then ret EmptyString
  else
    chars <- env.GetStringUTFChars vm jstr;;
    match chars with
    | None => ret EmptyString
    | Some buf =>
        let result := until_nul buf in
        env.ReleaseStringUTFChars vm jstr buf;;
        ret result
    end.

(** [str.c_str()] points at the bytes of [str], followed by a NUL. *)
Definition StringToJString (str : string) : M W jstring :=
  env.NewStringUTF vm str.

(** *** Lookups *)

Definition FindClass (className : string) : M W jclass :=
  cls <- env.FindClass vm className;;
  JNI_CHECK_EXCEPTION;;
  ret cls.

Definition GetMethodID (cls : jclass) (methodName signature : string)
  : M W jmethodID :=
  mid <- env.GetID vm Instance Method cls methodName signature;;
  JNI_CHECK_EXCEPTION;;
  ret mid.

Definition GetStaticMethodID (cls : jclass) (methodName signature : string)
  : M W jmethodID :=
  mid <- env.GetID vm Static Method cls methodName signature;;
  JNI_CHECK_EXCEPTION;;
  ret mid.

Definition GetFieldID (cls : jclass) (fieldName signature : string)
  : M W jfieldID :=
  fid <- env.GetID vm Instance Field cls fieldName signature;;
  JNI_CHECK_EXCEPTION;;
  ret fid.

Definition GetStaticFieldID (cls : jclass) (fieldName signature : string)
  : M W jfieldID :=
  fid <- env.GetID vm Static Field cls fieldName signature;;
  JNI_CHECK_EXCEPTION;;
  ret fid.

(** *** JNITypeTraits *)

(** The specializations of [JNITypeTraits<T>]: the [signature] constant and
    the runtime family its slots call.  The primary template is declared and
    never defined, so any other [T] has no entry. *)
Definition JNITypeTraits (T : CType) : option (string * Family) :=
  match T with
  | Tjobject => Some ("Ljava/lang/Object;", FObject)
  | Tjstring => Some ("Ljava/lang/String;", FObject)
  | Tvoid => Some ("V", FVoid)
  | Tjboolean => Some ("Z", FBoolean)
  | Tjbyte => Some ("B", FByte)
  | Tjchar => Some ("C", FChar)
  | Tjshort => Some ("S", FShort)
  | Tjint => Some ("I", FInt)
  | Tjlong => Some ("J", FLong)
  | Tjfloat => Some ("F", FFloat)
  | Tjdouble => Some ("D", FDouble)
  | Tjclass | Tjthrowable | Tjarray => None
  end.

Definition JNITypeTraits_signature (T : CType) : option string :=
  fst <$> JNITypeTraits T.

(** The value a slot of type [T] returns ([void] slots return nothing; the
    [jstring] slots [static_cast] the object handle). *)
Definition typed (T : CType) (raw : Z) : value :=
  match T with
  | Tvoid => Void
  | _ => Val T raw
  end.

(** Field slots; the [void] specialization has none. *)
Definition JNITypeTraits_field (d : Disp) (T : CType)
  : option (jobject -> jfieldID -> M W value) :=
  match T, JNITypeTraits T with
  | Tvoid, _ => None
  | _, Some (_, F) =>
      Some (fun recv fid =>
              result <- env.GetField vm d F recv fid;;
              JNI_CHECK_EXCEPTION;;
              ret (typed T result))
  | _, None => None
  end.

Definition JNITypeTraits_GetField := JNITypeTraits_field Instance.
Definition JNITypeTraits_GetStaticField := JNITypeTraits_field Static.

(** Method slots. *)
Definition JNITypeTraits_method (d : Disp) (T : CType)
  : option (jobject -> jmethodID -> list jvalue -> M W value) :=
  match JNITypeTraits T with
  | Some (_, F) =>
      Some (fun recv mid args =>
              result <- env.CallMethodA vm d F recv mid args;;
              JNI_CHECK_EXCEPTION;;
              ret (typed T result))
  | None => None
  end.

Definition JNITypeTraits_CallMethod := JNITypeTraits_method Instance.
Definition JNITypeTraits_CallStaticMethod := JNITypeTraits_method Static.

(** *** ArgsToJValues *)

Definition setJValue (index : nat) (value : Arg) (values_ : list jvalue)
  : M W (list jvalue) :=
  match value with
  | a_jboolean v => ret (<[index := jv_z v]> values_)
  | a_jbyte v => ret (<[index := jv_b v]> values_)
  | a_jchar v => ret (<[index := jv_c v]> values_)
  | a_jshort v => ret (<[index := jv_s v]> values_)
  | a_jint v => ret (<[index := jv_i v]> values_)
  | a_jlong v => ret (<[index := jv_j v]> values_)
  | a_jfloat v => ret (<[index := jv_f v]> values_)
  | a_jdouble v => ret (<[index := jv_d v]> values_)
  | a_nullptr => ret (<[index := jv_l nullptr]> values_)
  | a_jobject h => ret (<[index := jv_l h]> values_)
  | a_ref h => ret (<[index := jv_l h]> values_)
  | a_string s =>
      jstr <- StringToJString s;;
      ret (<[index := jv_l jstr]> values_)
  | a_cstr None => ret (<[index := jv_l nullptr]> values_)
  | a_cstr (Some s) =>
      jstr <- env.NewStringUTF vm s;;
      ret (<[index := jv_l jstr]> values_)
  end.

Fixpoint convertArgs (index : nat) (args : list Arg) (values_ : list jvalue)
  : M W (list jvalue) :=
  match args with
  | [] => ret values_
  | value :: rest =>
      values_ <- setJValue index value values_;;
      convertArgs (S index) rest values_
  end.

(** The constructor, followed by [get()]. *)
Definition ArgsToJValues (args : list Arg) : M W (list jvalue) :=
  let size := if (0 <? length args)%nat then length args else 1%nat in
  convertArgs 0 args (replicate size jv_indeterminate).

(** *** CallMethod, CallStaticMethod, NewObject *)

(** The [if constexpr] chain of the zero-argument branch, which
    [CallMethod] and [CallStaticMethod] spell out twice, the same up to the
    [Static] infix and the receiver ([obj] or [cls]):
    [void], the eight primitives, then [jstring] or anything convertible to
    [jobject]. *)
Definition call_direct (d : Disp) (RetType : CType) (recv : jobject)
           (mid : jmethodID) : M W value :=
  match RetType with
  | Tvoid =>
      env.CallMethod vm d FVoid recv mid;;
      JNI_CHECK_EXCEPTION;;
      ret Void
  | Tjboolean =>
      result <- env.CallMethod vm d FBoolean recv mid;;
      JNI_CHECK_EXCEPTION;;
      ret (Val Tjboolean result)
  | Tjbyte =>
      result <- env.CallMethod vm d FByte recv mid;;
      JNI_CHECK_EXCEPTION;;
      ret (Val Tjbyte result)
  | Tjchar =>
      result <- env.CallMethod vm d FChar recv mid;;
      JNI_CHECK_EXCEPTION;;
      ret (Val Tjchar result)
  | Tjshort =>
      result <- env.CallMethod vm d FShort recv mid;;
      JNI_CHECK_EXCEPTION;;
      ret (Val Tjshort result)
  | Tjint =>
      result <- env.CallMethod vm d FInt recv mid;;
      JNI_CHECK_EXCEPTION;;
      ret (Val Tjint result)
  | Tjlong =>
      result <- env.CallMethod vm d FLong recv mid;;
      JNI_CHECK_EXCEPTION;;
      ret (Val Tjlong result)
  | Tjfloat =>
      result <- env.CallMethod vm d FFloat recv mid;;
      JNI_CHECK_EXCEPTION;;
      ret (Val Tjfloat result)
  | Tjdouble =>
      result <- env.CallMethod vm d FDouble recv mid;;
      JNI_CHECK_EXCEPTION;;
      ret (Val Tjdouble result)
  | Tjobject | Tjstring | Tjclass | Tjthrowable | Tjarray =>
      result <- env.CallMethod vm d FObject recv mid;;
      JNI_CHECK_EXCEPTION;;
      ret (Val RetType result)
  end.

(** The branch with arguments: pack, then dispatch through the table slot of
    [RetType].  [None]: the instantiation is ill-formed, [RetType] has no
    specialization. *)
Definition CallMethod_packed (RetType : CType) (obj : jobject)
           (methodName signature : string) (args : list Arg)
  : option (M W value) :=
  slot ← JNITypeTraits_CallMethod RetType;
  Some (cls <- env.GetObjectClass vm obj;;
        scoped cls (mid <- GetMethodID cls methodName signature;;
                    jvalues <- ArgsToJValues args;;
                    slot obj mid jvalues)).

(** [if constexpr (sizeof...(Args) == 0)] picks the branch when the template
    is instantiated. *)
Definition CallMethod (RetType : CType) (obj : jobject)
           (methodName signature : string) (args : list Arg)
  : option (M W value) :=
  match args with
  | [] =>
      Some (cls <- env.GetObjectClass vm obj;;
            scoped cls (mid <- GetMethodID cls methodName signature;;
                        call_direct Instance RetType obj mid))
  | _ :: _ => CallMethod_packed RetType obj methodName signature args
  end.

Definition CallStaticMethod_packed (RetType : CType)
           (className methodName signature : string) (args : list Arg)
  : option (M W value) :=
  slot ← JNITypeTraits_CallStaticMethod RetType;
  Some (cls <- FindClass className;;
        scoped cls (mid <- GetStaticMethodID cls methodName signature;;
                    jvalues <- ArgsToJValues args;;
                    slot cls mid jvalues)).

Definition CallStaticMethod (RetType : CType)
           (className methodName signature : string) (args : list Arg)
  : option (M W value) :=
  match args with
  | [] =>
      Some (cls <- FindClass className;;
            scoped cls (mid <- GetStaticMethodID cls methodName signature;;
                        call_direct Static RetType cls mid))
  | _ :: _ =>
      CallStaticMethod_packed RetType className methodName signature args
  end.

Definition NewObject (className constructorSignature : string)
           (args : list Arg) : M W jobject :=
  cls <- FindClass className;;
  scoped cls (constructor <- GetMethodID cls "<init>" constructorSignature;;
              jvalues <- ArgsToJValues args;;
              obj <- env.NewObjectA vm cls constructor jvalues;;
              JNI_CHECK_EXCEPTION;;
              ret obj).

(** *** GetField, GetStaticField *)

(** [static_cast<T>(e)] for [e] of type [jobject]: a down-cast for a
    reference type, a discard for [void], ill-formed for a primitive [T]. *)
Definition static_cast_jobject (T : CType) : option (value -> value) :=
  match T with
  | Tjobject | Tjstring | Tjclass | Tjthrowable | Tjarray =>
      Some (fun v => match v with Val _ raw => Val T raw | Void => Void end)
  | Tvoid => Some (fun _ => Void)
  | _ => None
  end.

(** The function body is one instantiation: both arms of the run-time
    [if (signature)] and the [JNITypeTraits<T>::signature] operand are
    compiled for every [T].  [None]: ill-formed. *)
Definition GetField (T : CType) (obj : jobject) (fieldName : string)
           (signature : option string) : option (M W value) :=
  sigT ← JNITypeTraits_signature T;
  slotT ← JNITypeTraits_GetField T;
  slotObject ← JNITypeTraits_GetField Tjobject;
  cast ← static_cast_jobject T;
  Some (cls <- env.GetObjectClass vm obj;;
        scoped cls
          (let fieldSig := match signature with
                           | Some sig => sig
                           | None => sigT
                           end in
           fid <- GetFieldID cls fieldName fieldSig;;
           match signature with
           | Some _ => v <- slotObject obj fid;; ret (cast v)
           | None => slotT obj fid
           end)).

Definition GetStaticField (T : CType) (className fieldName : string)
           (signature : option string) : option (M W value) :=
  sigT ← JNITypeTraits_signature T;
  slotT ← JNITypeTraits_GetStaticField T;
  slotObject ← JNITypeTraits_GetStaticField Tjobject;
  cast ← static_cast_jobject T;
  Some (cls <- FindClass className;;
        scoped cls
          (let fieldSig := match signature with
                           | Some sig => sig
                           | None => sigT
                           end in
           fid <- GetStaticFieldID cls fieldName fieldSig;;
           match signature with
           | Some _ => v <- slotObject cls fid;; ret (cast v)
           | None => slotT cls fid
           end)).
End Jni.
End jni.

(** ** Notions the properties are stated with *)

(** The one exception the header ever constructs: what [JNI_CHECK_EXCEPTION]
    throws for the pending Java exception [h]. *)
Definition ForeignFault (h : jthrowable) : JNIException :=
  {| what := "JNI exception occurred"; getJavaException := h |}.

Definition is_ForeignFault (e : JNIException) : Prop :=
  exists h, nonnull h = true /\ e = ForeignFault h.

(** The four functions [JNI_CHECK_EXCEPTION] itself calls. *)
Definition bridge_call (c : Call) : bool :=
  match c with
  | EvExceptionCheck | EvExceptionOccurred | EvExceptionDescribe
  | EvExceptionClear => true
  | _ => false
  end.

Definition is_check (c : Call) : bool :=
  match c with
  | EvExceptionCheck => true
  | _ => false
  end.

Definition is_delete (c : Call) : bool :=
  match c with
  | EvDeleteLocalRef _ => true
  | _ => false
  end.

(** Every call into the runtime, the [exempt] ones apart, is followed later
    in the trace by an [ExceptionCheck]. *)
Fixpoint followed_by_check (exempt : Call -> bool) (t : list Call) : bool :=
  match t with
  | [] => true
  | c :: rest =>
      (exempt c || existsb is_check rest) && followed_by_check exempt rest
  end.

(** The bridge's own calls and the guard's [DeleteLocalRef]. *)
Definition bridge_or_delete (c : Call) : bool := bridge_call c || is_delete c.

(** The lookup, field-read, invocation and construction families. *)
Definition guarded (c : Call) : bool :=
  match c with
  | EvFindClass _ | EvGetID _ _ _ _ _ | EvGetField _ _ _ _
  | EvCallMethod _ _ _ _ | EvCallMethodA _ _ _ _ _ | EvNewObjectA _ _ _ => true
  | _ => false
  end.

(** Every call of a guarded family is immediately followed by
    [ExceptionCheck]. *)
Fixpoint checked_at_once (t : list Call) : bool :=
  match t with
  | [] => true
  | c :: rest =>
      (negb (guarded c) || match rest with
                           | EvExceptionCheck :: _ => true
                           | _ => false
                           end)
      && checked_at_once rest
  end.

Definition array_call (c : Call) : bool :=
  match c with
  | EvCallMethodA _ _ _ _ _ | EvNewObjectA _ _ _ => true
  | _ => false
  end.

(** What a guard's user may do with it between construction and
    destruction. *)
Inductive GuardUse := use_get | use_release.

Definition is_release (u : GuardUse) : bool :=
  match u with
  | use_release => true
  | use_get => false
  end.

Fixpoint guard_uses (g : jni.ScopedLocalRef) (script : list GuardUse)
  : list jobject * jni.ScopedLocalRef :=
  match script with
  | [] => ([], g)
  | use_get :: rest =>
      let '(hs, g') := guard_uses g rest in
      (jni.ScopedLocalRef_get g :: hs, g')
  | use_release :: rest =>
      let '(h, g1) := jni.ScopedLocalRef_release g in
      let '(hs, g') := guard_uses g1 rest in
      (h :: hs, g')
  end.

(** One guard from its constructor to its destructor; the result lists the
    handles [get] and [release] returned. *)
Definition guard_lifetime {W} (vm : JavaVM W) (ref : jobject)
           (script : list GuardUse) : M W (list jobject) :=
  let '(hs, g) := guard_uses (jni.ScopedLocalRef_new ref) script in
  jni.ScopedLocalRef_destroy vm g;;
  ret hs.

(** The cell an argument is converted to, by the packing policy: primitives
    by value into their member, null and handles as they are, strings as a
    new Java string. *)
Definition cell_of {W} (vm : JavaVM W) (a : Arg) : M W jvalue :=
  match a with
  | a_jboolean v => ret (jv_z v)
  | a_jbyte v => ret (jv_b v)
  | a_jchar v => ret (jv_c v)
  | a_jshort v => ret (jv_s v)
  | a_jint v => ret (jv_i v)
  | a_jlong v => ret (jv_j v)
  | a_jfloat v => ret (jv_f v)
  | a_jdouble v => ret (jv_d v)
  | a_nullptr | a_cstr None => ret (jv_l nullptr)
  | a_jobject h | a_ref h => ret (jv_l h)
  | a_string s | a_cstr (Some s) =>
      jstr <- env.NewStringUTF vm s;; ret (jv_l jstr)
  end.

(** The text of the arguments that are turned into Java strings, in order:
    a null [const char*] is not among them. *)
Fixpoint string_args (args : list Arg) : list string :=
  match args with
  | [] => []
  | (a_string t | a_cstr (Some t)) :: rest => t :: string_args rest
  | _ :: rest => string_args rest
  end.

(** Whether a template instantiation is well-formed. *)
Definition instantiates {X} (o : option X) : bool :=
  match o with
  | Some _ => true
  | None => false
  end.

(** The types with a [JNITypeTraits] specialization that [static_cast] can
    produce from a [jobject]. *)
Definition castable_with_slot (T : CType) : bool :=
  match T with
  | Tjobject | Tjstring => true
  | _ => false
  end.

(** Two runs that end in the same state with the same outcome. *)
Definition same_result {W A} (r1 r2 : Res W A) : Prop :=
  st r1 = st r2 /\ outcome r1 = outcome r2.

(** No array-based primitive among the calls of a computation. *)
Definition no_array_call {W A} (m : M W A) : Prop :=
  forall s, existsb array_call (trace (m s)) = false.

(** The operations the header offers, with their run-time arguments. *)
Inductive Op :=
| op_FindClass (className : string)
| op_GetMethodID (cls : jclass) (name sig : string)
| op_GetStaticMethodID (cls : jclass) (name sig : string)
| op_GetFieldID (cls : jclass) (name sig : string)
| op_GetStaticFieldID (cls : jclass) (name sig : string)
| op_traits_field (d : Disp) (T : CType) (recv : jobject) (fid : jfieldID)
| op_traits_method (d : Disp) (T : CType) (recv : jobject) (mid : jmethodID)
                   (args : list jvalue)
| op_JStringToString (jstr : jstring)
| op_StringToJString (str : string)
| op_ArgsToJValues (args : list Arg)
| op_ScopedLocalRef (ref : jobject) (script : list GuardUse)
| op_CallMethod (RetType : CType) (obj : jobject) (name sig : string)
                (args : list Arg)
| op_CallStaticMethod (RetType : CType) (className name sig : string)
                      (args : list Arg)
| op_NewObject (className sig : string) (args : list Arg)
| op_GetField (T : CType) (obj : jobject) (name : string)
              (sig : option string)
| op_GetStaticField (T : CType) (className name : string)
                    (sig : option string).

Definition high_level (op : Op) : bool :=
  match op with
  | op_CallMethod _ _ _ _ _ | op_CallStaticMethod _ _ _ _ _
  | op_NewObject _ _ _ | op_GetField _ _ _ _ | op_GetStaticField _ _ _ _ =>
      true
  | _ => false
  end.

(** Run for its effects only. *)
Definition discard {W A} (m : M W A) : M W unit := m;; ret tt.

(** The computation an operation stands for; [None] where the template
    instantiation it names is ill-formed. *)
Definition perform {W} (vm : JavaVM W) (op : Op) : option (M W unit) :=
  match op with
  | op_FindClass n => Some (discard (jni.FindClass vm n))
  | op_GetMethodID c n g => Some (discard (jni.GetMethodID vm c n g))
  | op_GetStaticMethodID c n g =>
      Some (discard (jni.GetStaticMethodID vm c n g))
  | op_GetFieldID c n g => Some (discard (jni.GetFieldID vm c n g))
  | op_GetStaticFieldID c n g =>
      Some (discard (jni.GetStaticFieldID vm c n g))
  | op_traits_field d T recv fid =>
      slot ← jni.JNITypeTraits_field vm d T; Some (discard (slot recv fid))
  | op_traits_method d T recv mid args =>
      slot ← jni.JNITypeTraits_method vm d T;
      Some (discard (slot recv mid args))
  | op_JStringToString j => Some (discard (jni.JStringToString vm j))
  | op_StringToJString t => Some (discard (jni.StringToJString vm t))
  | op_ArgsToJValues args => Some (discard (jni.ArgsToJValues vm args))
  | op_ScopedLocalRef ref script =>
      Some (discard (guard_lifetime vm ref script))
  | op_CallMethod R o n g args => discard <$> jni.CallMethod vm R o n g args
  | op_CallStaticMethod R c n g args =>
      discard <$> jni.CallStaticMethod vm R c n g args
  | op_NewObject c g args => Some (discard (jni.NewObject vm c g args))
  | op_GetField T o n g => discard <$> jni.GetField vm T o n g
  | op_GetStaticField T c n g => discard <$> jni.GetStaticField vm T c n g
  end.

(** ** A small runtime to evaluate the header on *)

Module demo.

Record World := {
  next_ref : Z;
  strings : list (Z * string);
  room : nat
}.

Definition NoClassDefFoundError : jthrowable := 900%Z.
Definition NoSuchMethodError : jthrowable := 901%Z.
Definition NoSuchFieldError : jthrowable := 902%Z.
Definition IllegalStateException : jthrowable := 903%Z.
Definition OutOfMemoryError : jthrowable := 904%Z.

Definition Widget : jclass := 100%Z.

Definition answer {A} (w : World) (a : A) : Reply World A :=
  {| now := w; ret_val := a; thrown := nullptr |}.

Definition raise {A} (w : World) (a : A) (h : jthrowable) : Reply World A :=
  {| now := w; ret_val := a; thrown := h |}.

Fixpoint chars_of (table : list (Z * string)) (h : Z) : option string :=
  match table with
  | [] => None
  | (h', s) :: rest => if (h' =? h)%Z then Some s else chars_of rest h
  end.

(** Class [Widget] has methods [size ()I] (7), [fail ()V] (throws) and
    [name ()Ljava/lang/String;], and an [int] field [count] (3) and an
    object field [owner]. *)
Definition member (k : MemberKind) (name sig : string) : option Z :=
  match k with
  | Method =>
      if String.eqb name "size" && String.eqb sig "()I" then Some 201%Z
      else if String.eqb name "fail" && String.eqb sig "()V" then Some 202%Z
      else if String.eqb name "<init>" && String.eqb sig "()V" then Some 203%Z
      else None
  | Field =>
      if String.eqb name "count" && String.eqb sig "I" then Some 301%Z
      else if String.eqb name "owner" && String.eqb sig "Lwidget/Owner;"
      then Some 302%Z
      else None
  end.

Definition invoke (w : World) (mid : jmethodID) : Reply World Z :=
  if (mid =? 201)%Z then answer w 7%Z
  else if (mid =? 202)%Z then raise w 0%Z IllegalStateException
  else answer w 0%Z.

Definition vm : JavaVM World := {|
  vm_FindClass w name :=
    if String.eqb name "widget/Widget" then answer w Widget
    else raise w nullptr NoClassDefFoundError;
  vm_GetObjectClass w obj := answer w Widget;
  vm_GetID w d k cls name sig :=
    match member k name sig with
    | Some id => answer w id
    | None =>
        raise w nullptr
              match k with
              | Method => NoSuchMethodError
              | Field => NoSuchFieldError
              end
    end;
  vm_GetField w d F recv fid :=
    if (fid =? 301)%Z then answer w 3%Z else answer w 77%Z;
  vm_CallMethod w d F recv mid := invoke w mid;
  vm_CallMethodA w d F recv mid args := invoke w mid;
  vm_NewObjectA w cls ctor args :=
    answer {| next_ref := next_ref w + 1; strings := strings w;
              room := room w |} (next_ref w);
  vm_NewStringUTF w bytes :=
    match room w with
    | O => raise w nullptr OutOfMemoryError
    | S n =>
        answer {| next_ref := next_ref w + 1;
                  strings := (next_ref w, bytes) :: strings w;
                  room := n |} (next_ref w)
    end;
  vm_GetStringUTFChars w jstr :=
    match chars_of (strings w) jstr with
    | Some s => answer w (Some s)
    | None => raise w None OutOfMemoryError
    end;
  vm_ReleaseStringUTFChars w jstr chars := w;
  vm_DeleteLocalRef w ref := w
|}.

Definition start (n : nat) : St World :=
  {| world := {| next_ref := 1000; strings := []; room := n |};
     pending := nullptr |}.

Definition widget : jobject := 500%Z.

End demo.

(** ** How the header's computations are built *)

(** Every operation is put together from: returning a value, a call of an
    unguarded family, a call of a guarded family with the check right behind
    it, sequencing, and a scoped-guard block. *)
Inductive wrapper {W} (vm : JavaVM W) : forall {A}, M W A -> Prop :=
| w_ret {A} (a : A) : wrapper vm (ret a)
| w_plain {A} (c : Call) (ask : W -> Reply W A) :
    guarded c = false -> bridge_call c = false ->
    wrapper vm (env.foreign c ask)
| w_quiet (c : Call) (tell : W -> W) :
    guarded c = false -> bridge_call c = false ->
    wrapper vm (env.quiet c tell)
| w_checked {A B} (c : Call) (ask : W -> Reply W A) (k : A -> M W B) :
    bridge_call c = false ->
    (forall x, wrapper vm (k x)) ->
    wrapper vm (x <- env.foreign c ask;; jni.JNI_CHECK_EXCEPTION;; k x)
| w_bind {A B} (m : M W A) (k : A -> M W B) :
    wrapper vm m -> (forall x, wrapper vm (k x)) -> wrapper vm (x <- m;; k x)
| w_scoped {A} (cls : jclass) (body : M W A) :
    wrapper vm body -> wrapper vm (jni.scoped vm cls body).

(** A run whose trace has a check and leaves no call, the guard's
    [DeleteLocalRef] apart, without a later check. *)
Definition closed_trace (t : list Call) : Prop :=
  followed_by_check bridge_or_delete t = true /\ existsb is_check t = true.

Definition closing {W A} (m : M W A) : Prop :=
  forall s, closed_trace (trace (m s)).

(** A trace that stays checked whatever follows it. *)
Definition tidy (t : list Call) : Prop :=
  forall t', checked_at_once (t ++ t') = checked_at_once t'.

(** A computation whose last step before leaving, by return or by throw, is
    the bridge (followed at most by guard destructors): a guarded call kept
    as the result, anything followed by such a computation, such a
    computation with its result converted, or a guarded block around one. *)
Inductive finishing {W} (vm : JavaVM W) : forall {A}, M W A -> Prop :=
| f_checked {A B} (c : Call) (ask : W -> Reply W A) (b : A -> B) :
    finishing vm (x <- env.foreign c ask;; jni.JNI_CHECK_EXCEPTION;; ret (b x))
| f_bind {A B} (m : M W A) (k : A -> M W B) :
    wrapper vm m -> (forall x, finishing vm (k x)) ->
    finishing vm (x <- m;; k x)
| f_then_ret {A B} (m : M W A) (b : A -> B) :
    finishing vm m -> finishing vm (x <- m;; ret (b x))
| f_scoped {A} (cls : jclass) (body : M W A) :
    finishing vm body -> finishing vm (jni.scoped vm cls body).

(** No [DeleteLocalRef] among the calls of a computation. *)
Definition guardless {W A} (m : M W A) : Prop :=
  forall s, existsb is_delete (trace (m s)) = false.

(** What the bridge makes of the pending slot [h] after a call that
    returned [v]. *)
Definition bridged {A} (h : jthrowable) (v : A) : Outcome A :=
  if nonnull h then Throw (ForeignFault h) else Return v.

(** The guard's destructor call for the class handle [cls]. *)
Definition class_release (cls : jclass) : list Call :=
  if nonnull cls then [EvDeleteLocalRef cls] else [].

(** The calls of a bridge that throws. *)
Definition bridge_throws : list Call :=
  [EvExceptionCheck; EvExceptionOccurred; EvExceptionDescribe;
   EvExceptionClear].

(** The pending slot after a call that raised [raised], [before] having
    been pending. *)
Definition newest (raised before : jthrowable) : jthrowable :=
  if nonnull raised then raised else before.

(** A guarded call with the bridge behind it, the runtime having answered
    [r] to call [c] in state [s]: the fault pending after the call is thrown,
    otherwise the answer is returned (as [b] types it); nothing stays
    pending. *)
Definition checked_result {W A B} (s : St W) (c : Call) (r : Reply W A)
           (b : A -> B) : Res W B :=
  let h := newest (thrown r) (pending s) in
  {| st := {| world := now r; pending := nullptr |};
     trace := c :: (if nonnull h then bridge_throws else [EvExceptionCheck]);
     outcome := bridged h (b (ret_val r)) |}.

(** The family the zero-argument chain calls for a return type. *)
Definition direct_family (RetType : CType) : Family :=
  match RetType with
  | Tvoid => FVoid
  | Tjboolean => FBoolean
  | Tjbyte => FByte
  | Tjchar => FChar
  | Tjshort => FShort
  | Tjint => FInt
  | Tjlong => FLong
  | Tjfloat => FFloat
  | Tjdouble => FDouble
  | Tjobject | Tjstring | Tjclass | Tjthrowable | Tjarray => FObject
  end.

(** * Proofs *)

Section Proofs.
Context {W : Type} (vm : JavaVM W).

(** ** The monad *)

Lemma bind_return {A B} (m : M W A) (k : A -> M W B) s a :
  outcome (m s) = Return a ->
  bind m k s = {| st := st (k a (st (m s)));
                  trace := trace (m s) ++ trace (k a (st (m s)));
                  outcome := outcome (k a (st (m s))) |}.
Proof. intros H. unfold bind. now rewrite H. Qed.

Lemma bind_throw {A B} (m : M W A) (k : A -> M W B) s e :
  outcome (m s) = Throw e ->
  bind m k s = {| st := st (m s); trace := trace (m s); outcome := Throw e |}.
Proof. intros H. unfold bind. now rewrite H. Qed.

Lemma nonnull_true h : nonnull h = true <-> h <> nullptr.
Proof.
  unfold nonnull, nullptr. rewrite negb_true_iff, Z.eqb_neq. tauto.
Qed.

Lemma nonnull_false h : nonnull h = false <-> h = nullptr.
Proof.
  unfold nonnull, nullptr. rewrite negb_false_iff, Z.eqb_eq. tauto.
Qed.

(** ** The exception bridge *)

Lemma check_pending (s : St W) :
  nonnull (pending s) = true ->
  jni.JNI_CHECK_EXCEPTION s =
    {| st := {| world := world s; pending := nullptr |};
       trace := [EvExceptionCheck; EvExceptionOccurred; EvExceptionDescribe;
                 EvExceptionClear];
       outcome := Throw (ForeignFault (pending s)) |}.
Proof.
  intros H. unfold jni.JNI_CHECK_EXCEPTION, bind. cbn. rewrite H. reflexivity.
Qed.

Lemma check_clear (s : St W) :
  nonnull (pending s) = false ->
  jni.JNI_CHECK_EXCEPTION s =
    {| st := s; trace := [EvExceptionCheck]; outcome := Return tt |}.
Proof.
  intros H. unfold jni.JNI_CHECK_EXCEPTION, bind. cbn. rewrite H. reflexivity.
Qed.

Lemma check_leaves_nothing_pending (s : St W) :
  pending (st (jni.JNI_CHECK_EXCEPTION s)) = nullptr.
Proof.
  destruct (nonnull (pending s)) eqn:E.
  - now rewrite check_pending.
  - rewrite check_clear by assumption. now apply nonnull_false.
Qed.

(** A guarded call with its check, spelled out. *)
Lemma checked_call {A B} c (ask : W -> Reply W A) (k : A -> M W B) s :
  let r := ask (world s) in
  let s1 := env.foreign c ask s in
  (x <- env.foreign c ask;; jni.JNI_CHECK_EXCEPTION;; k x) s =
    if nonnull (pending (st s1)) then
      {| st := {| world := now r; pending := nullptr |};
         trace := [c; EvExceptionCheck; EvExceptionOccurred;
                   EvExceptionDescribe; EvExceptionClear];
         outcome := Throw (ForeignFault (pending (st s1))) |}
    else
      let r' := k (ret_val r) (st s1) in
      {| st := st r'; trace := c :: EvExceptionCheck :: trace r';
         outcome := outcome r' |}.
Proof.
  cbn zeta. unfold bind at 1. cbn [env.foreign outcome st trace].
  destruct (nonnull (pending _)) eqn:E.
  - erewrite bind_throw; [| rewrite check_pending by exact E; reflexivity].
    rewrite check_pending by exact E. reflexivity.
  - erewrite bind_return; [| rewrite check_clear by exact E; reflexivity].
    rewrite check_clear by exact E. reflexivity.
Qed.

(** ** Two invariants of every computation the header builds *)

Lemma destroy_keeps_pending (g : jni.ScopedLocalRef) (s : St W) :
  pending (st (jni.ScopedLocalRef_destroy vm g s)) = pending s.
Proof.
  unfold jni.ScopedLocalRef_destroy. now destruct (nonnull (jni.ref_ g)).
Qed.

Lemma destroy_returns (g : jni.ScopedLocalRef) (s : St W) :
  outcome (jni.ScopedLocalRef_destroy vm g s) = Return tt.
Proof.
  unfold jni.ScopedLocalRef_destroy. now destruct (nonnull (jni.ref_ g)).
Qed.

Lemma destroy_trace (g : jni.ScopedLocalRef) (s : St W) :
  trace (jni.ScopedLocalRef_destroy vm g s) =
    if nonnull (jni.ref_ g) then [EvDeleteLocalRef (jni.ref_ g)] else [].
Proof.
  unfold jni.ScopedLocalRef_destroy. now destruct (nonnull (jni.ref_ g)).
Qed.

(** Whatever a computation throws was thrown by the bridge, for a fault that
    is no longer pending afterwards. *)
Lemma wrapper_faults {A} (m : M W A) :
  wrapper vm m ->
  forall s e, outcome (m s) = Throw e ->
    is_ForeignFault e /\ pending (st (m s)) = nullptr.
Proof.
  induction 1 as [A a | A c ask _ _ | c tell _ _ | A B c ask k _ _ IH
                 | A B m k _ IHm _ IHk | A cls body _ IH]; intros s e.
  - discriminate.
  - discriminate.
  - discriminate.
  - rewrite checked_call. cbn zeta.
    destruct (nonnull (pending (st (env.foreign c ask s)))) eqn:E;
      cbn [outcome st pending].
    + intros [= <-]. split; [| reflexivity].
      eexists. split; [exact E | reflexivity].
    + apply IH.
  - unfold bind. destruct (outcome (m s)) as [a | e'] eqn:E; cbn.
    + apply IHk.
    + intros [= <-]. now apply IHm.
  - unfold jni.scoped. cbn. intros H. rewrite destroy_keeps_pending.
    now apply IH.
Qed.

Lemma tidy_nil : tidy [].
Proof. now intros t'. Qed.

Lemma tidy_app t1 t2 : tidy t1 -> tidy t2 -> tidy (t1 ++ t2).
Proof. intros H1 H2 t'. now rewrite <- app_assoc, H1, H2. Qed.

Lemma tidy_plain c : guarded c = false -> tidy [c].
Proof. intros H t'. cbn. now rewrite H. Qed.

Lemma tidy_checked c t : tidy t -> tidy (c :: EvExceptionCheck :: t).
Proof.
  intros H t'. specialize (H t'). cbn in *. rewrite H.
  now rewrite orb_true_r.
Qed.

Lemma tidy_sound t : tidy t -> checked_at_once t = true.
Proof. intros H. specialize (H []). now rewrite app_nil_r in H. Qed.

(** Every guarded call in the trace has its check right behind it. *)
Lemma wrapper_tidy {A} (m : M W A) :
  wrapper vm m -> forall s, tidy (trace (m s)).
Proof.
  induction 1 as [A a | A c ask Hc _ | c tell Hc _ | A B c ask k _ _ IH
                 | A B m k _ IHm _ IHk | A cls body _ IH]; intros s.
  - apply tidy_nil.
  - now apply tidy_plain.
  - now apply tidy_plain.
  - rewrite checked_call. cbn zeta.
    destruct (nonnull (pending (st (env.foreign c ask s)))); cbn.
    + apply tidy_checked. intros t'. reflexivity.
    + apply tidy_checked, IH.
  - unfold bind. destruct (outcome (m s)) as [a | e'] eqn:E; cbn.
    + apply tidy_app; [apply IHm | apply IHk].
    + apply IHm.
  - unfold jni.scoped. cbn. apply tidy_app; [apply IH |].
    rewrite destroy_trace. destruct (nonnull _); [| apply tidy_nil].
    now apply tidy_plain.
Qed.

(** ** Every operation is built that way *)

Ltac wrap :=
  repeat first
    [ apply w_ret
    | apply w_checked; [reflexivity | intros]
    | apply w_scoped
    | apply w_plain; reflexivity
    | apply w_quiet; reflexivity
    | apply w_bind; [| intros]
    | match goal with
      | |- wrapper _ (match ?x with _ => _ end) => destruct x
      | |- wrapper _ (if ?b then _ else _) => destruct b
      end ].

Lemma wrapper_discard {A} (m : M W A) : wrapper vm m -> wrapper vm (discard m).
Proof. intros H. unfold discard. apply w_bind; [exact H | intros; apply w_ret]. Qed.

Lemma wrapper_FindClass n : wrapper vm (jni.FindClass vm n).
Proof. unfold jni.FindClass, env.FindClass. wrap. Qed.

Lemma wrapper_GetMethodID c n g : wrapper vm (jni.GetMethodID vm c n g).
Proof. unfold jni.GetMethodID, env.GetID. wrap. Qed.

Lemma wrapper_GetStaticMethodID c n g :
  wrapper vm (jni.GetStaticMethodID vm c n g).
Proof. unfold jni.GetStaticMethodID, env.GetID. wrap. Qed.

Lemma wrapper_GetFieldID c n g : wrapper vm (jni.GetFieldID vm c n g).
Proof. unfold jni.GetFieldID, env.GetID. wrap. Qed.

Lemma wrapper_GetStaticFieldID c n g :
  wrapper vm (jni.GetStaticFieldID vm c n g).
Proof. unfold jni.GetStaticFieldID, env.GetID. wrap. Qed.

Lemma wrapper_field d T slot recv fid :
  jni.JNITypeTraits_field vm d T = Some slot -> wrapper vm (slot recv fid).
Proof.
  unfold jni.JNITypeTraits_field.
  destruct T; cbn; intros [= <-]; unfold env.GetField; wrap.
Qed.

Lemma wrapper_method d T slot recv mid args :
  jni.JNITypeTraits_method vm d T = Some slot ->
  wrapper vm (slot recv mid args).
Proof.
  unfold jni.JNITypeTraits_method.
  destruct T; cbn; intros [= <-]; unfold env.CallMethodA; wrap.
Qed.

Lemma wrapper_JStringToString j : wrapper vm (jni.JStringToString vm j).
Proof.
  unfold jni.JStringToString, env.GetStringUTFChars,
    env.ReleaseStringUTFChars.
  destruct (negb (nonnull j)); wrap.
Qed.

Lemma wrapper_NewStringUTF t : wrapper vm (env.NewStringUTF vm t).
Proof. unfold env.NewStringUTF. wrap. Qed.

Lemma wrapper_StringToJString t : wrapper vm (jni.StringToJString vm t).
Proof. apply wrapper_NewStringUTF. Qed.

Lemma wrapper_setJValue i a vs : wrapper vm (jni.setJValue vm i a vs).
Proof.
  destruct a as [| | | | | | | | | | | |[]]; cbn; try apply w_ret;
    (apply w_bind; [first [apply wrapper_StringToJString
                          | apply wrapper_NewStringUTF]
                   | intros; apply w_ret]).
Qed.

Lemma wrapper_convertArgs args : forall i vs,
  wrapper vm (jni.convertArgs vm i args vs).
Proof.
  induction args as [| a args IH]; intros i vs; cbn.
  - apply w_ret.
  - apply w_bind; [apply wrapper_setJValue | intros; apply IH].
Qed.

Lemma wrapper_ArgsToJValues args : wrapper vm (jni.ArgsToJValues vm args).
Proof. apply wrapper_convertArgs. Qed.

Lemma wrapper_call_direct d R recv mid :
  wrapper vm (jni.call_direct vm d R recv mid).
Proof. destruct R; cbn; unfold env.CallMethod; wrap. Qed.

Lemma wrapper_destroy g : wrapper vm (jni.ScopedLocalRef_destroy vm g).
Proof.
  unfold jni.ScopedLocalRef_destroy, env.DeleteLocalRef.
  destruct (nonnull _); wrap.
Qed.

Lemma wrapper_guard_lifetime ref script :
  wrapper vm (guard_lifetime vm ref script).
Proof.
  unfold guard_lifetime. destruct (guard_uses _ _) as [hs g].
  apply w_bind; [apply wrapper_destroy | intros; apply w_ret].
Qed.

Lemma wrapper_GetObjectClass o : wrapper vm (env.GetObjectClass vm o).
Proof. unfold env.GetObjectClass. wrap. Qed.

Lemma wrapper_CallMethod_packed R o n g args m :
  jni.CallMethod_packed vm R o n g args = Some m -> wrapper vm m.
Proof.
  unfold jni.CallMethod_packed, jni.JNITypeTraits_CallMethod.
  destruct (jni.JNITypeTraits_method vm Instance R) as [slot |] eqn:E;
    cbn; intros [= <-].
  apply w_bind; [apply wrapper_GetObjectClass | intros cls].
  apply w_scoped, w_bind; [apply wrapper_GetMethodID | intros mid].
  apply w_bind; [apply wrapper_ArgsToJValues | intros vs].
  now apply (wrapper_method Instance R slot).
Qed.

Lemma wrapper_CallMethod R o n g args m :
  jni.CallMethod vm R o n g args = Some m -> wrapper vm m.
Proof.
  destruct args as [| a args]; cbn.
  - intros [= <-].
    apply w_bind; [apply wrapper_GetObjectClass | intros cls].
    apply w_scoped, w_bind; [apply wrapper_GetMethodID | intros mid].
    apply wrapper_call_direct.
  - apply wrapper_CallMethod_packed.
Qed.

Lemma wrapper_CallStaticMethod_packed R c n g args m :
  jni.CallStaticMethod_packed vm R c n g args = Some m -> wrapper vm m.
Proof.
  unfold jni.CallStaticMethod_packed, jni.JNITypeTraits_CallStaticMethod.
  destruct (jni.JNITypeTraits_method vm Static R) as [slot |] eqn:E;
    cbn; intros [= <-].
  apply w_bind; [apply wrapper_FindClass | intros cls].
  apply w_scoped, w_bind; [apply wrapper_GetStaticMethodID | intros mid].
  apply w_bind; [apply wrapper_ArgsToJValues | intros vs].
  now apply (wrapper_method Static R slot).
Qed.

Lemma wrapper_CallStaticMethod R c n g args m :
  jni.CallStaticMethod vm R c n g args = Some m -> wrapper vm m.
Proof.
  destruct args as [| a args]; cbn.
  - intros [= <-].
    apply w_bind; [apply wrapper_FindClass | intros cls].
    apply w_scoped, w_bind; [apply wrapper_GetStaticMethodID | intros mid].
    apply wrapper_call_direct.
  - apply wrapper_CallStaticMethod_packed.
Qed.

Lemma wrapper_NewObject c g args : wrapper vm (jni.NewObject vm c g args).
Proof.
  unfold jni.NewObject.
  apply w_bind; [apply wrapper_FindClass | intros cls].
  apply w_scoped, w_bind; [apply wrapper_GetMethodID | intros mid].
  apply w_bind; [apply wrapper_ArgsToJValues | intros vs].
  unfold env.NewObjectA. wrap.
Qed.

Lemma wrapper_GetField T o n g m :
  jni.GetField vm T o n g = Some m -> wrapper vm m.
Proof.
  unfold jni.GetField, jni.JNITypeTraits_GetField.
  destruct (jni.JNITypeTraits_signature T) as [sigT |]; [| discriminate].
  destruct (jni.JNITypeTraits_field vm Instance T) as [slotT |] eqn:ET;
    [| discriminate].
  destruct (jni.JNITypeTraits_field vm Instance Tjobject) as [slotO |] eqn:EO;
    [| discriminate].
  destruct (jni.static_cast_jobject T) as [cast |]; [| discriminate].
  cbn. intros [= <-].
  apply w_bind; [apply wrapper_GetObjectClass | intros cls].
  apply w_scoped, w_bind; [apply wrapper_GetFieldID | intros fid].
  destruct g.
  - apply w_bind; [| intros; apply w_ret].
    now apply (wrapper_field Instance Tjobject slotO).
  - now apply (wrapper_field Instance T slotT).
Qed.

Lemma wrapper_GetStaticField T c n g m :
  jni.GetStaticField vm T c n g = Some m -> wrapper vm m.
Proof.
  unfold jni.GetStaticField, jni.JNITypeTraits_GetStaticField.
  destruct (jni.JNITypeTraits_signature T) as [sigT |]; [| discriminate].
  destruct (jni.JNITypeTraits_field vm Static T) as [slotT |] eqn:ET;
    [| discriminate].
  destruct (jni.JNITypeTraits_field vm Static Tjobject) as [slotO |] eqn:EO;
    [| discriminate].
  destruct (jni.static_cast_jobject T) as [cast |]; [| discriminate].
  cbn. intros [= <-].
  apply w_bind; [apply wrapper_FindClass | intros cls].
  apply w_scoped, w_bind; [apply wrapper_GetStaticFieldID | intros fid].
  destruct g.
  - apply w_bind; [| intros; apply w_ret].
    now apply (wrapper_field Static Tjobject slotO).
  - now apply (wrapper_field Static T slotT).
Qed.

Lemma wrapper_fmap_discard {A} (o : option (M W A)) m :
  (forall m', o = Some m' -> wrapper vm m') ->
  discard <$> o = Some m -> wrapper vm m.
Proof.
  intros H. destruct o as [m' |]; cbn; [| discriminate].
  intros [= <-]. now apply wrapper_discard, H.
Qed.

Lemma wrapper_perform op m : perform vm op = Some m -> wrapper vm m.
Proof.
  destruct op; cbn [perform];
    try (intros [= <-]; apply wrapper_discard;
         first [ apply wrapper_FindClass | apply wrapper_GetMethodID
               | apply wrapper_GetStaticMethodID | apply wrapper_GetFieldID
               | apply wrapper_GetStaticFieldID
               | apply wrapper_JStringToString
               | apply wrapper_StringToJString
               | apply wrapper_ArgsToJValues
               | apply wrapper_guard_lifetime
               | apply wrapper_NewObject ]).
  - destruct (jni.JNITypeTraits_field vm d T) as [slot |] eqn:E; cbn;
      [| discriminate].
    intros [= <-]. now apply wrapper_discard, (wrapper_field d T slot).
  - destruct (jni.JNITypeTraits_method vm d T) as [slot |] eqn:E; cbn;
      [| discriminate].
    intros [= <-]. now apply wrapper_discard, (wrapper_method d T slot).
  - apply wrapper_fmap_discard. intros m'. apply wrapper_CallMethod.
  - apply wrapper_fmap_discard. intros m'. apply wrapper_CallStaticMethod.
  - apply wrapper_fmap_discard. intros m'. apply wrapper_GetField.
  - apply wrapper_fmap_discard. intros m'. apply wrapper_GetStaticField.
Qed.

(** ** The exception bridge in every operation *)

Lemma checked_call_raises {A B} c (ask : W -> Reply W A) (k : A -> M W B) s :
  thrown (ask (world s)) <> nullptr ->
  (x <- env.foreign c ask;; jni.JNI_CHECK_EXCEPTION;; k x) s =
    {| st := {| world := now (ask (world s)); pending := nullptr |};
       trace := [c; EvExceptionCheck; EvExceptionOccurred;
                 EvExceptionDescribe; EvExceptionClear];
       outcome := Throw (ForeignFault (thrown (ask (world s)))) |}.
Proof.
  intros H. apply nonnull_true in H. rewrite checked_call. cbn. now rewrite !H.
Qed.

Lemma checked_call_quiet {A B} c (ask : W -> Reply W A) (k : A -> M W B) s :
  pending s = nullptr -> thrown (ask (world s)) = nullptr ->
  (x <- env.foreign c ask;; jni.JNI_CHECK_EXCEPTION;; k x) s =
    let r' := k (ret_val (ask (world s)))
                {| world := now (ask (world s)); pending := nullptr |} in
    {| st := st r'; trace := c :: EvExceptionCheck :: trace r';
       outcome := outcome r' |}.
Proof.
  intros Hp H. rewrite checked_call. cbn. rewrite H, Hp. reflexivity.
Qed.

(** ** One kind of failure *)

Lemma scoped_outcome {A} cls (body : M W A) s :
  outcome (jni.scoped vm cls body s) = outcome (body s).
Proof. reflexivity. Qed.

Lemma foreign_then {A B} c (ask : W -> Reply W A) (k : A -> M W B) s :
  outcome ((x <- env.foreign c ask;; k x) s) =
  outcome (k (ret_val (ask (world s))) (st (env.foreign c ask s))).
Proof. reflexivity. Qed.

Lemma lookup_raises {B} c (ask : W -> Reply W Z) (k : Z -> M W B) s :
  thrown (ask (world s)) <> nullptr ->
  outcome ((id <- (x <- env.foreign c ask;; jni.JNI_CHECK_EXCEPTION;; ret x);;
            k id) s)
  = Throw (ForeignFault (thrown (ask (world s)))).
Proof.
  intros H. erewrite bind_throw; [reflexivity |].
  now rewrite checked_call_raises.
Qed.

Lemma lookup_quiet {B} c (ask : W -> Reply W Z) (k : Z -> M W B) s :
  pending s = nullptr -> thrown (ask (world s)) = nullptr ->
  outcome ((id <- (x <- env.foreign c ask;; jni.JNI_CHECK_EXCEPTION;; ret x);;
            k id) s)
  = outcome (k (ret_val (ask (world s)))
               {| world := now (ask (world s)); pending := nullptr |}).
Proof.
  intros Hp H. erewrite bind_return.
  - cbn [outcome]. rewrite checked_call_quiet by assumption. reflexivity.
  - rewrite checked_call_quiet by assumption. reflexivity.
Qed.

Lemma CallMethod_body R o n g args m :
  jni.CallMethod vm R o n g args = Some m ->
  exists body,
    m = (cls <- env.GetObjectClass vm o;;
         jni.scoped vm cls (mid <- jni.GetMethodID vm cls n g;; body mid)).
Proof.
  destruct args as [| a args]; cbn.
  - intros [= <-]. now eexists.
  - unfold jni.CallMethod_packed.
    destruct (jni.JNITypeTraits_CallMethod vm R) as [slot |]; cbn;
      [| discriminate].
    intros [= <-].
    now exists (fun mid => jvalues <- jni.ArgsToJValues vm (a :: args);;
                           slot o mid jvalues).
Qed.

Lemma CallStaticMethod_body R c n g args m :
  jni.CallStaticMethod vm R c n g args = Some m ->
  exists body,
    m = (cls <- jni.FindClass vm c;;
         jni.scoped vm cls
           (mid <- jni.GetStaticMethodID vm cls n g;; body cls mid)).
Proof.
  destruct args as [| a args]; cbn.
  - intros [= <-]. now eexists (fun cls mid => _).
  - unfold jni.CallStaticMethod_packed.
    destruct (jni.JNITypeTraits_CallStaticMethod vm R) as [slot |]; cbn;
      [| discriminate].
    intros [= <-].
    now exists (fun cls mid =>
                  jvalues <- jni.ArgsToJValues vm (a :: args);;
                  slot cls mid jvalues).
Qed.

Lemma GetField_body T o n g m :
  jni.GetField vm T o n g = Some m ->
  exists sigT body,
    jni.JNITypeTraits_signature T = Some sigT /\
    m = (cls <- env.GetObjectClass vm o;;
         jni.scoped vm cls
           (fid <- jni.GetFieldID vm cls n
                     match g with Some sig => sig | None => sigT end;;
            body fid)).
Proof.
  unfold jni.GetField.
  destruct (jni.JNITypeTraits_signature T) as [sigT |]; [| discriminate].
  destruct (jni.JNITypeTraits_GetField vm T) as [slotT |]; [| discriminate].
  destruct (jni.JNITypeTraits_GetField vm Tjobject) as [slotO |];
    [| discriminate].
  destruct (jni.static_cast_jobject T) as [cast |]; [| discriminate].
  cbn. intros [= <-]. exists sigT. now eexists.
Qed.

Lemma GetStaticField_body T c n g m :
  jni.GetStaticField vm T c n g = Some m ->
  exists sigT body,
    jni.JNITypeTraits_signature T = Some sigT /\
    m = (cls <- jni.FindClass vm c;;
         jni.scoped vm cls
           (fid <- jni.GetStaticFieldID vm cls n
                     match g with Some sig => sig | None => sigT end;;
            body cls fid)).
Proof.
  unfold jni.GetStaticField.
  destruct (jni.JNITypeTraits_signature T) as [sigT |]; [| discriminate].
  destruct (jni.JNITypeTraits_GetStaticField vm T) as [slotT |];
    [| discriminate].
  destruct (jni.JNITypeTraits_GetStaticField vm Tjobject) as [slotO |];
    [| discriminate].
  destruct (jni.static_cast_jobject T) as [cast |]; [| discriminate].
  cbn. intros [= <-]. exists sigT. now eexists (fun cls fid => _).
Qed.

(** C2, as the header has it: there is a single kind of failure.  Whatever
    an operation throws is the bridge's [JNIException] carrying a non-null
    fault handle, and a call against a member the runtime does not resolve
    (the lookup raises a fault) fails with exactly that exception, carrying
    the lookup's fault. *)
Theorem C2_single_failure_kind :
  (forall op m s e,
     perform vm op = Some m -> outcome (m s) = Throw e -> is_ForeignFault e) /\
  (forall R obj name sig args m s,
     jni.CallMethod vm R obj name sig args = Some m ->
     let r0 := vm_GetObjectClass vm (world s) obj in
     let r1 := vm_GetID vm (now r0) Instance Method (ret_val r0) name sig in
     thrown r1 <> nullptr ->
     outcome (m s) = Throw (ForeignFault (thrown r1))) /\
  (forall R className name sig args m s,
     jni.CallStaticMethod vm R className name sig args = Some m ->
     let r0 := vm_FindClass vm (world s) className in
     let r1 := vm_GetID vm (now r0) Static Method (ret_val r0) name sig in
     pending s = nullptr -> thrown r0 = nullptr -> thrown r1 <> nullptr ->
     outcome (m s) = Throw (ForeignFault (thrown r1))) /\
  (forall T obj name sig sigT m s,
     jni.GetField vm T obj name sig = Some m ->
     jni.JNITypeTraits_signature T = Some sigT ->
     let r0 := vm_GetObjectClass vm (world s) obj in
     let r1 := vm_GetID vm (now r0) Instance Field (ret_val r0) name
                 match sig with Some g => g | None => sigT end in
     thrown r1 <> nullptr ->
     outcome (m s) = Throw (ForeignFault (thrown r1))) /\
  (forall T className name sig sigT m s,
     jni.GetStaticField vm T className name sig = Some m ->
     jni.JNITypeTraits_signature T = Some sigT ->
     let r0 := vm_FindClass vm (world s) className in
     let r1 := vm_GetID vm (now r0) Static Field (ret_val r0) name
                 match sig with Some g => g | None => sigT end in
     pending s = nullptr -> thrown r0 = nullptr -> thrown r1 <> nullptr ->
     outcome (m s) = Throw (ForeignFault (thrown r1))).
Proof.
  repeat split.
  - intros op m s e Hop He.
    eapply wrapper_faults; eauto using wrapper_perform.
  - intros R obj name sig args m s Hm r0 r1 H.
    apply CallMethod_body in Hm as [body ->].
    unfold env.GetObjectClass. rewrite foreign_then, scoped_outcome.
    unfold jni.GetMethodID, env.GetID. now rewrite lookup_raises.
  - intros R cn name sig args m s Hm r0 r1 Hp H0 H1.
    apply CallStaticMethod_body in Hm as [body ->].
    unfold jni.FindClass, env.FindClass.
    rewrite lookup_quiet by assumption. rewrite scoped_outcome.
    unfold jni.GetStaticMethodID, env.GetID. now rewrite lookup_raises.
  - intros T obj name sig sigT m s Hm Hsig r0 r1 H.
    apply GetField_body in Hm as (sigT' & body & Hsig' & ->).
    rewrite Hsig in Hsig'. injection Hsig' as <-.
    unfold env.GetObjectClass. rewrite foreign_then, scoped_outcome.
    unfold jni.GetFieldID, env.GetID. now rewrite lookup_raises.
  - intros T cn name sig sigT m s Hm Hsig r0 r1 Hp H0 H1.
    apply GetStaticField_body in Hm as (sigT' & body & Hsig' & ->).
    rewrite Hsig in Hsig'. injection Hsig' as <-.
    unfold jni.FindClass, env.FindClass.
    rewrite lookup_quiet by assumption. rewrite scoped_outcome.
    unfold jni.GetStaticFieldID, env.GetID. now rewrite lookup_raises.
Qed.

(** ** Where the check sits *)

Lemma followed_by_check_app ex t1 t2 :
  followed_by_check ex (t1 ++ t2) =
    (existsb is_check t2 || followed_by_check ex t1)
    && followed_by_check ex t2.
Proof.
  induction t1 as [| c t1 IH]; cbn.
  - now rewrite orb_true_r.
  - rewrite IH, existsb_app.
    destruct (ex c), (existsb is_check t1), (existsb is_check t2),
      (followed_by_check ex t1), (followed_by_check ex t2); reflexivity.
Qed.

Lemma closed_after t1 t2 : closed_trace t2 -> closed_trace (t1 ++ t2).
Proof.
  intros [H1 H2]. split.
  - now rewrite followed_by_check_app, H1, H2.
  - now rewrite existsb_app, H2, orb_true_r.
Qed.

Lemma closed_bridge_throw c :
  closed_trace [c; EvExceptionCheck; EvExceptionOccurred;
                EvExceptionDescribe; EvExceptionClear].
Proof. split; cbn; now rewrite ?orb_true_r. Qed.

Lemma closed_destroy t g (s : St W) :
  closed_trace t ->
  closed_trace (t ++ trace (jni.ScopedLocalRef_destroy vm g s)).
Proof.
  intros [H1 H2]. rewrite destroy_trace. destruct (nonnull _).
  - split.
    + now rewrite followed_by_check_app, H1.
    + now rewrite existsb_app, H2.
  - now rewrite app_nil_r.
Qed.

(** A computation that throws has run the bridge: its trace is closed. *)
Lemma wrapper_throw_closed {A} (m : M W A) :
  wrapper vm m ->
  forall s e, outcome (m s) = Throw e -> closed_trace (trace (m s)).
Proof.
  induction 1 as [A a | A c ask _ _ | c tell _ _ | A B c ask k _ _ IH
                 | A B m k _ IHm _ IHk | A cls body _ IH]; intros s e.
  - discriminate.
  - discriminate.
  - discriminate.
  - rewrite checked_call. cbn zeta.
    destruct (nonnull (pending (st (env.foreign c ask s))));
      cbn [outcome trace].
    + intros _. apply closed_bridge_throw.
    + intros H. apply (closed_after [c; EvExceptionCheck]). eapply IH, H.
  - unfold bind. destruct (outcome (m s)) as [a | e'] eqn:E;
      cbn [outcome trace].
    + intros H. eapply closed_after, IHk, H.
    + intros _. eapply IHm, E.
  - unfold jni.scoped. cbn [outcome trace]. intros H.
    eapply closed_destroy, IH, H.
Qed.

Lemma closing_checked {A B} c (ask : W -> Reply W A) (b : A -> B) :
  closing (x <- env.foreign c ask;; jni.JNI_CHECK_EXCEPTION;; ret (b x)).
Proof.
  intros s. rewrite checked_call. cbn zeta. destruct (nonnull _).
  - apply closed_bridge_throw.
  - split; reflexivity || (cbn; now rewrite ?orb_true_r).
Qed.

Lemma closing_bind {A B} (m : M W A) (k : A -> M W B) :
  wrapper vm m -> (forall x, closing (k x)) -> closing (x <- m;; k x).
Proof.
  intros Hm Hk s. unfold bind.
  destruct (outcome (m s)) as [a | e] eqn:E; cbn [trace].
  - apply closed_after, Hk.
  - eapply wrapper_throw_closed; eauto.
Qed.

Lemma closing_then_ret {A B} (m : M W A) (b : A -> B) :
  closing m -> closing (x <- m;; ret (b x)).
Proof.
  intros Hm s. unfold bind. destruct (outcome (m s)) as [a | e]; cbn [trace].
  - cbn. rewrite app_nil_r. apply Hm.
  - apply Hm.
Qed.

Lemma closing_scoped {A} cls (body : M W A) :
  closing body -> closing (jni.scoped vm cls body).
Proof. intros H s. unfold jni.scoped. cbn [trace]. apply closed_destroy, H. Qed.

Lemma closing_call_direct d R recv mid :
  closing (jni.call_direct vm d R recv mid).
Proof.
  destruct R; cbn; unfold env.CallMethod;
    first [ apply (closing_checked _ _ (fun _ => Void))
          | apply (closing_checked _ _ (Val _)) ].
Qed.

Lemma closing_method d T slot recv mid args :
  jni.JNITypeTraits_method vm d T = Some slot ->
  closing (slot recv mid args).
Proof.
  unfold jni.JNITypeTraits_method.
  destruct (jni.JNITypeTraits T) as [[sg F] |]; [| discriminate].
  intros [= <-]. apply closing_checked.
Qed.

Lemma closing_field d T slot recv fid :
  jni.JNITypeTraits_field vm d T = Some slot -> closing (slot recv fid).
Proof.
  unfold jni.JNITypeTraits_field.
  destruct T; cbn; intros [= <-]; apply closing_checked.
Qed.

Lemma closing_discard {A} (m : M W A) : closing m -> closing (discard m).
Proof. apply (closing_then_ret m (fun _ => tt)). Qed.

Lemma closing_high_level op m :
  high_level op = true -> perform vm op = Some m -> closing m.
Proof.
  destruct op; try discriminate; intros _; cbn [perform].
  - (* CallMethod *)
    destruct args as [| a args]; cbn.
    + intros [= <-]. apply closing_discard.
      apply closing_bind; [apply wrapper_GetObjectClass | intros cls].
      apply closing_scoped, closing_bind;
        [apply wrapper_GetMethodID | intros mid].
      apply closing_call_direct.
    + unfold jni.CallMethod_packed, jni.JNITypeTraits_CallMethod.
      destruct (jni.JNITypeTraits_method vm Instance RetType)
        as [slot |] eqn:E; cbn; [| discriminate].
      intros [= <-]. apply closing_discard.
      apply closing_bind; [apply wrapper_GetObjectClass | intros cls].
      apply closing_scoped, closing_bind;
        [apply wrapper_GetMethodID | intros mid].
      apply closing_bind;
        [apply (wrapper_ArgsToJValues (a :: args)) | intros vs].
      now apply (closing_method Instance RetType).
  - (* CallStaticMethod *)
    destruct args as [| a args]; cbn.
    + intros [= <-]. apply closing_discard.
      apply closing_bind; [apply wrapper_FindClass | intros cls].
      apply closing_scoped, closing_bind;
        [apply wrapper_GetStaticMethodID | intros mid].
      apply closing_call_direct.
    + unfold jni.CallStaticMethod_packed, jni.JNITypeTraits_CallStaticMethod.
      destruct (jni.JNITypeTraits_method vm Static RetType)
        as [slot |] eqn:E; cbn; [| discriminate].
      intros [= <-]. apply closing_discard.
      apply closing_bind; [apply wrapper_FindClass | intros cls].
      apply closing_scoped, closing_bind;
        [apply wrapper_GetStaticMethodID | intros mid].
      apply closing_bind;
        [apply (wrapper_ArgsToJValues (a :: args)) | intros vs].
      now apply (closing_method Static RetType).
  - (* NewObject *)
    intros [= <-]. apply closing_discard. unfold jni.NewObject.
    apply closing_bind; [apply wrapper_FindClass | intros cls].
    apply closing_scoped, closing_bind;
      [apply wrapper_GetMethodID | intros mid].
    apply closing_bind; [apply wrapper_ArgsToJValues | intros vs].
    unfold env.NewObjectA. apply (closing_checked _ _ (fun x => x)).
  - (* GetField *)
    unfold jni.GetField, jni.JNITypeTraits_GetField.
    destruct (jni.JNITypeTraits_signature T) as [sigT |]; [| discriminate].
    destruct (jni.JNITypeTraits_field vm Instance T) as [slotT |] eqn:ET;
      [| discriminate].
    destruct (jni.JNITypeTraits_field vm Instance Tjobject)
      as [slotO |] eqn:EO; [| discriminate].
    destruct (jni.static_cast_jobject T) as [cast |]; [| discriminate].
    cbn. intros [= <-]. apply closing_discard.
    apply closing_bind; [apply wrapper_GetObjectClass | intros cls].
    apply closing_scoped, closing_bind;
      [apply wrapper_GetFieldID | intros fid].
    destruct sig.
    + apply closing_then_ret. now apply (closing_field Instance Tjobject).
    + now apply (closing_field Instance T).
  - (* GetStaticField *)
    unfold jni.GetStaticField, jni.JNITypeTraits_GetStaticField.
    destruct (jni.JNITypeTraits_signature T) as [sigT |]; [| discriminate].
    destruct (jni.JNITypeTraits_field vm Static T) as [slotT |] eqn:ET;
      [| discriminate].
    destruct (jni.JNITypeTraits_field vm Static Tjobject)
      as [slotO |] eqn:EO; [| discriminate].
    destruct (jni.static_cast_jobject T) as [cast |]; [| discriminate].
    cbn. intros [= <-]. apply closing_discard.
    apply closing_bind; [apply wrapper_FindClass | intros cls].
    apply closing_scoped, closing_bind;
      [apply wrapper_GetStaticFieldID | intros fid].
    destruct sig.
    + apply closing_then_ret. now apply (closing_field Static Tjobject).
    + now apply (closing_field Static T).
Qed.

(** C3, as the header has it: in every operation each call of the lookup,
    field-read, invocation and construction families ([FindClass],
    [Get(Static)MethodID], [Get(Static)FieldID], [Get(Static)<Type>Field],
    [Call(Static)<Type>Method(A)], [NewObjectA]) is immediately followed by
    the bridge's [ExceptionCheck]; and in the five high-level operations
    every call, the guard's [DeleteLocalRef] apart, is followed by an
    [ExceptionCheck] before the operation is left. *)
Theorem C3_guarded_calls_checked :
  (forall op m s,
     perform vm op = Some m -> checked_at_once (trace (m s)) = true) /\
  (forall op m s,
     high_level op = true -> perform vm op = Some m ->
     followed_by_check bridge_or_delete (trace (m s)) = true).
Proof.
  split.
  - intros op m s Hop. apply tidy_sound, wrapper_tidy.
    now apply (wrapper_perform op).
  - intros op m s Hh Hop. now apply (closing_high_level op m Hh Hop s).
Qed.

(** ** The scoped guard *)

Lemma guard_uses_released g script :
  existsb is_release script = true ->
  jni.ref_ (snd (guard_uses g script)) = nullptr.
Proof.
  revert g. induction script as [| u script IH]; intros g; cbn.
  - discriminate.
  - destruct u; cbn.
    + intros H. specialize (IH g H).
      now destruct (guard_uses g script).
    + intros _. destruct (existsb is_release script) eqn:E.
      * specialize (IH {| jni.ref_ := nullptr |} eq_refl).
        now destruct (guard_uses _ script).
      * clear IH. induction script as [| u' script IH']; [reflexivity |].
        cbn in *. destruct u'; [| discriminate]. cbn in E.
        specialize (IH' E). now destruct (guard_uses _ script).
Qed.

Lemma guard_uses_kept g script :
  existsb is_release script = false -> snd (guard_uses g script) = g.
Proof.
  induction script as [| u script IH]; cbn; [reflexivity |].
  destruct u; cbn; [| discriminate].
  intros H. specialize (IH H). now destruct (guard_uses g script).
Qed.

Lemma guard_lifetime_trace ref script (s : St W) :
  trace (guard_lifetime vm ref script s) =
    if nonnull ref && negb (existsb is_release script)
    then [EvDeleteLocalRef ref] else [].
Proof.
  unfold guard_lifetime.
  destruct (guard_uses _ script) as [hs g] eqn:E.
  assert (Hg : g = snd (guard_uses (jni.ScopedLocalRef_new ref) script))
    by now rewrite E.
  unfold bind. rewrite destroy_returns. cbn [trace ret].
  rewrite app_nil_r, destroy_trace.
  destruct (existsb is_release script) eqn:R.
  - rewrite Hg, guard_uses_released by exact R.
    cbn. now rewrite andb_false_r.
  - rewrite Hg, guard_uses_kept by exact R. cbn.
    now rewrite andb_true_r.
Qed.

(** C4: over a guard's lifetime (constructor, any sequence of [get] and
    [release], destructor) [DeleteLocalRef] is called at most once, on the
    held handle and only by the destructor; [release] returns the handle and
    nulls [ref_]; a guard whose [ref_] is null, from its constructor or after
    a [release], is destroyed without any call. *)
Theorem C4_released_at_most_once :
  (forall ref script (s : St W),
     trace (guard_lifetime vm ref script s) =
       (if nonnull ref && negb (existsb is_release script)
        then [EvDeleteLocalRef ref] else []) /\
     (length (List.filter is_delete
                          (trace (guard_lifetime vm ref script s))) <= 1)%nat) /\
  (forall g : jni.ScopedLocalRef,
     jni.ScopedLocalRef_release g = (jni.ref_ g, {| jni.ref_ := nullptr |}) /\
     jni.ScopedLocalRef_get g = jni.ref_ g) /\
  (forall (g : jni.ScopedLocalRef) (s : St W),
     jni.ScopedLocalRef_destroy vm (snd (jni.ScopedLocalRef_release g)) s =
       {| st := s; trace := []; outcome := Return tt |}) /\
  (forall s : St W,
     jni.ScopedLocalRef_destroy vm (jni.ScopedLocalRef_new nullptr) s =
       {| st := s; trace := []; outcome := Return tt |}).
Proof.
  repeat split.
  - apply guard_lifetime_trace.
  - rewrite guard_lifetime_trace.
    destruct (nonnull ref && negb (existsb is_release script)); cbn; lia.
Qed.

(** ** The argument packer *)

Lemma cell_of_returns a (s : St W) :
  exists c, outcome (cell_of vm a s) = Return c.
Proof. destruct a as [| | | | | | | | | | | |[]]; now eexists. Qed.

Lemma setJValue_cell i a vs (s : St W) c :
  outcome (cell_of vm a s) = Return c ->
  jni.setJValue vm i a vs s =
    {| st := st (cell_of vm a s); trace := trace (cell_of vm a s);
       outcome := Return (<[i := c]> vs) |}.
Proof.
  destruct a as [| | | | | | | | | | | |[]];
    unfold jni.setJValue, cell_of, jni.StringToJString, bind; cbn;
    intros [= <-]; reflexivity.
Qed.

Lemma cell_of_trace a (s : St W) :
  trace (cell_of vm a s) =
    map (fun t => EvNewStringUTF (until_nul t)) (string_args [a]).
Proof. destruct a as [| | | | | | | | | | | |[]]; reflexivity. Qed.

Lemma convertArgs_cons i a rest vs (s : St W) c :
  outcome (cell_of vm a s) = Return c ->
  jni.convertArgs vm i (a :: rest) vs s =
    let r := jni.convertArgs vm (S i) rest (<[i := c]> vs)
               (st (cell_of vm a s)) in
    {| st := st r; trace := trace (cell_of vm a s) ++ trace r;
       outcome := outcome r |}.
Proof.
  intros H. cbn [jni.convertArgs].
  erewrite bind_return; rewrite (setJValue_cell i a vs s c H); reflexivity.
Qed.

(** The state and the calls do not depend on where the cells go. *)
Lemma convertArgs_effects args : forall i i' vs vs' (s : St W),
  st (jni.convertArgs vm i args vs s) = st (jni.convertArgs vm i' args vs' s)
  /\ trace (jni.convertArgs vm i args vs s)
     = trace (jni.convertArgs vm i' args vs' s).
Proof.
  induction args as [| a args IH]; intros i i' vs vs' s; [now split |].
  destruct (cell_of_returns a s) as [c Hc].
  rewrite !(convertArgs_cons _ _ _ _ _ c Hc). cbn.
  destruct (IH (S i) (S i') (<[i := c]> vs) (<[i' := c]> vs')
               (st (cell_of vm a s))) as [-> ->].
  now split.
Qed.

Lemma convertArgs_trace args : forall i vs (s : St W),
  trace (jni.convertArgs vm i args vs s) =
    map (fun t => EvNewStringUTF (until_nul t)) (string_args args).
Proof.
  induction args as [| a args IH]; intros i vs s; [reflexivity |].
  destruct (cell_of_returns a s) as [c Hc].
  rewrite (convertArgs_cons _ _ _ _ _ c Hc). cbn.
  rewrite IH, cell_of_trace.
  change (a :: args) with ([a] ++ args).
  destruct a as [| | | | | | | | | | | |[]]; reflexivity.
Qed.

(** The packing loop: it returns, keeps the array's length, leaves the cells
    outside its range alone and stores at [i + k] the conversion of the
    [k]-th argument, made in the state its predecessors left. *)
Lemma convertArgs_cells args : forall i vs (s : St W),
  (i + length args <= length vs)%nat ->
  exists cells,
    outcome (jni.convertArgs vm i args vs s) = Return cells /\
    length cells = length vs /\
    (forall j, (j < i)%nat -> cells !! j = vs !! j) /\
    (forall k a, args !! k = Some a ->
       exists c,
         outcome (cell_of vm a
                    (st (jni.convertArgs vm i (take k args) vs s)))
         = Return c /\
         cells !! (i + k)%nat = Some c).
Proof.
  induction args as [| a args IH]; intros i vs s Hlen.
  - exists vs. repeat split; try reflexivity. intros k a H.
    now rewrite lookup_nil in H.
  - destruct (cell_of_returns a s) as [c Hc]. cbn [length] in Hlen.
    destruct (IH (S i) (<[i := c]> vs) (st (cell_of vm a s)))
      as (cells & Hout & Hl & Hlow & Hcells).
    { rewrite length_insert. lia. }
    exists cells. rewrite (convertArgs_cons _ _ _ _ _ c Hc). cbn zeta.
    cbn [outcome]. repeat split.
    + exact Hout.
    + now rewrite Hl, length_insert.
    + intros j Hj. rewrite Hlow by lia.
      apply list_lookup_insert_ne. lia.
    + intros [| k] b Hb.
      * cbn in Hb. injection Hb as <-. exists c. split; [exact Hc |].
        rewrite Nat.add_0_r, Hlow by lia.
        apply list_lookup_insert_eq. lia.
      * cbn in Hb. destruct (Hcells k b Hb) as (c' & Hc' & Hk).
        exists c'. split.
        -- cbn [take]. rewrite (convertArgs_cons _ _ _ _ _ c Hc). exact Hc'.
        -- now replace (i + S k)%nat with (S i + k)%nat by lia.
Qed.

Lemma ArgsToJValues_size (args : list Arg) :
  (if (0 <? length args)%nat then length args else 1%nat)
  = Nat.max (length args) 1.
Proof. destruct args as [| a args]; cbn; lia. Qed.

(** C5: for [N >= 0] arguments the packer returns an array of [max N 1]
    cells, and for every [i < N] cell [i] holds the conversion of argument
    [i], made after the arguments before it were converted. *)
Theorem C5_packer_cells :
  forall (args : list Arg) (s : St W),
  exists cells,
    outcome (jni.ArgsToJValues vm args s) = Return cells /\
    length cells = Nat.max (length args) 1 /\
    (forall i a, args !! i = Some a ->
       exists c,
         outcome (cell_of vm a (st (jni.ArgsToJValues vm (take i args) s)))
         = Return c /\
         cells !! i = Some c).
Proof.
  intros args s. unfold jni.ArgsToJValues. cbn zeta.
  rewrite !ArgsToJValues_size.
  destruct (convertArgs_cells args 0
              (replicate (Nat.max (length args) 1) jv_indeterminate) s)
    as (cells & Hout & Hl & _ & Hcells).
  { rewrite length_replicate. lia. }
  exists cells. repeat split.
  - exact Hout.
  - now rewrite Hl, length_replicate.
  - intros i a Ha. destruct (Hcells i a Ha) as (c & Hc & Hi).
    exists c. split; [| exact Hi].
    rewrite ArgsToJValues_size.
    now rewrite (proj1 (convertArgs_effects (take i args) 0 0 _
                          (replicate (Nat.max (length args) 1)
                                     jv_indeterminate) s)).
Qed.

(** C10: a [const char*] argument that is null is stored as a null
    reference, without any call into the runtime; in a packed argument list
    its cell holds the null reference, and the packer's only calls are one
    [NewStringUTF] per [std::string] or non-null [const char*] argument, in
    order. *)
Theorem C10_null_c_string :
  (forall i vs (s : St W),
     jni.setJValue vm i (a_cstr None) vs s =
       {| st := s; trace := [];
          outcome := Return (<[i := jv_l nullptr]> vs) |}) /\
  (forall args (s : St W),
     trace (jni.ArgsToJValues vm args s) =
       map (fun t => EvNewStringUTF (until_nul t)) (string_args args)) /\
  (forall args (s : St W) i,
     args !! i = Some (a_cstr None) ->
     exists cells,
       outcome (jni.ArgsToJValues vm args s) = Return cells /\
       cells !! i = Some (jv_l nullptr)).
Proof.
  repeat split.
  - intros args s. apply convertArgs_trace.
  - intros args s i Hi. unfold jni.ArgsToJValues. cbn zeta.
    rewrite ArgsToJValues_size.
    destruct (convertArgs_cells args 0
                (replicate (Nat.max (length args) 1) jv_indeterminate) s)
      as (cells & Hout & _ & _ & Hcells).
    { rewrite length_replicate. lia. }
    exists cells. split; [exact Hout |].
    destruct (Hcells i _ Hi) as (c & Hc & Hci).
    cbn in Hc. injection Hc as <-. exact Hci.
Qed.

(** ** String conversion *)

Lemma until_nul_no_nul t : no_nul t = true -> until_nul t = t.
Proof.
  induction t as [| c t IH]; cbn; [reflexivity |].
  destruct (Ascii.eqb c zero); cbn; [discriminate |].
  intros H. now rewrite IH.
Qed.

Lemma until_nul_idem t : until_nul (until_nul t) = until_nul t.
Proof.
  induction t as [| c t IH]; cbn; [reflexivity |].
  destruct (Ascii.eqb c zero) eqn:E; cbn; [reflexivity |].
  now rewrite E, IH.
Qed.

(** C6: [JStringToString] never throws.  For a null handle it returns the
    empty string without calling the runtime; when [GetStringUTFChars] gives
    no buffer it returns the empty string; otherwise it returns the buffer's
    characters and its only further call is [ReleaseStringUTFChars] on that
    buffer (no [DeleteLocalRef] on the handle). *)
Theorem C6_JStringToString_total :
  forall jstr (s : St W),
    let r := jni.JStringToString vm jstr s in
    let g := vm_GetStringUTFChars vm (world s) jstr in
    (exists text, outcome r = Return text) /\
    (jstr = nullptr ->
       r = {| st := s; trace := []; outcome := Return EmptyString |}) /\
    (jstr <> nullptr -> ret_val g = None ->
       outcome r = Return EmptyString /\ trace r = [EvGetStringUTFChars jstr]) /\
    (forall buf, jstr <> nullptr -> ret_val g = Some buf ->
       outcome r = Return (until_nul buf) /\
       trace r = [EvGetStringUTFChars jstr;
                  EvReleaseStringUTFChars jstr buf]).
Proof.
  intros jstr s. cbn zeta. unfold jni.JStringToString.
  destruct (nonnull jstr) eqn:E; cbn [negb].
  - apply nonnull_true in E.
    unfold bind, env.GetStringUTFChars. cbn [env.foreign outcome st trace].
    destruct (ret_val (vm_GetStringUTFChars vm (world s) jstr)) as [buf |];
      cbn.
    + repeat split; try easy; try congruence. now eexists.
    + repeat split; try easy. now eexists.
  - apply nonnull_false in E. repeat split; try easy. now eexists.
Qed.

(** C7: for a text without NUL bytes, [StringToJString] followed by
    [JStringToString] returns the text, on a runtime that creates the string
    and exposes for the new handle the characters it was created from. *)
Theorem C7_string_round_trip :
  forall text (s : St W),
    no_nul text = true ->
    let n := vm_NewStringUTF vm (world s) text in
    ret_val n <> nullptr ->
    ret_val (vm_GetStringUTFChars vm (now n) (ret_val n)) = Some text ->
    outcome ((h <- jni.StringToJString vm text;; jni.JStringToString vm h) s)
    = Return text.
Proof.
  intros text s Hn n Hh Hc.
  unfold jni.StringToJString, env.NewStringUTF, jni.JStringToString.
  rewrite (until_nul_no_nul text Hn). rewrite foreign_then.
  apply nonnull_true in Hh. cbn [env.foreign st world]. fold n.
  rewrite Hh. cbn [negb].
  unfold env.GetStringUTFChars. rewrite foreign_then. cbn [world].
  rewrite Hc. cbn. now rewrite (until_nul_no_nul text Hn).
Qed.

(** ** The zero-argument path *)

Lemma same_result_refl {A} (r : Res W A) : same_result r r.
Proof. now split. Qed.

Lemma same_result_bind {A B} (m : M W A) (k1 k2 : A -> M W B) s :
  (forall x s', same_result (k1 x s') (k2 x s')) ->
  same_result ((x <- m;; k1 x) s) ((x <- m;; k2 x) s).
Proof.
  intros H. unfold bind. destruct (outcome (m s)) as [a | e].
  - destruct (H a (st (m s))) as [Hs Ho]. now split.
  - now split.
Qed.

Lemma same_result_scoped {A} cls (b1 b2 : M W A) s :
  same_result (b1 s) (b2 s) ->
  same_result (jni.scoped vm cls b1 s) (jni.scoped vm cls b2 s).
Proof.
  intros [Hs Ho]. unfold jni.scoped, same_result. cbn. now rewrite Hs, Ho.
Qed.

Lemma ArgsToJValues_nil (s : St W) :
  jni.ArgsToJValues vm [] s =
    {| st := s; trace := []; outcome := Return [jv_indeterminate] |}.
Proof. reflexivity. Qed.

Lemma call_direct_family d R sg F recv mid :
  jni.JNITypeTraits R = Some (sg, F) ->
  jni.call_direct vm d R recv mid =
    (result <- env.CallMethod vm d F recv mid;;
     jni.JNI_CHECK_EXCEPTION;;
     ret (jni.typed R result)).
Proof. destruct R; cbn; intros [= <- <-]; reflexivity. Qed.

Lemma call_direct_dispatched d R sg F slot recv mid s :
  jni.JNITypeTraits R = Some (sg, F) ->
  jni.JNITypeTraits_method vm d R = Some slot ->
  vm_CallMethodA vm (world s) d F recv mid [jv_indeterminate]
  = vm_CallMethod vm (world s) d F recv mid ->
  same_result (jni.call_direct vm d R recv mid s)
              ((jvalues <- jni.ArgsToJValues vm [];;
                slot recv mid jvalues) s).
Proof.
  intros HR Hslot Hvm. rewrite (call_direct_family d R sg F) by exact HR.
  unfold jni.JNITypeTraits_method in Hslot. rewrite HR in Hslot.
  injection Hslot as <-.
  erewrite (bind_return (jni.ArgsToJValues vm [])) by reflexivity.
  rewrite ArgsToJValues_nil. cbn [st trace].
  unfold env.CallMethod, env.CallMethodA. rewrite !checked_call.
  cbn. rewrite Hvm.
  destruct (nonnull _); now split.
Qed.

Lemma call_direct_trace d R sg F recv mid s :
  jni.JNITypeTraits R = Some (sg, F) ->
  exists rest,
    trace (jni.call_direct vm d R recv mid s)
    = EvCallMethod d F recv mid :: EvExceptionCheck :: rest /\
    forallb bridge_call rest = true.
Proof.
  intros HR. rewrite (call_direct_family d R sg F) by exact HR.
  unfold env.CallMethod. rewrite checked_call. cbn zeta.
  destruct (nonnull _); now eexists.
Qed.

Lemma no_array_bind {A B} (m : M W A) (k : A -> M W B) :
  no_array_call m -> (forall x, no_array_call (k x)) ->
  no_array_call (x <- m;; k x).
Proof.
  intros Hm Hk s. unfold bind. destruct (outcome (m s)) as [a | e]; cbn.
  - now rewrite existsb_app, Hm, Hk.
  - apply Hm.
Qed.

Lemma no_array_scoped {A} cls (body : M W A) :
  no_array_call body -> no_array_call (jni.scoped vm cls body).
Proof.
  intros H s. unfold jni.scoped. cbn.
  rewrite existsb_app, H, destroy_trace. now destruct (nonnull _).
Qed.

Lemma no_array_checked {A B} c (ask : W -> Reply W A) (k : A -> M W B) :
  array_call c = false -> (forall x, no_array_call (k x)) ->
  no_array_call (x <- env.foreign c ask;; jni.JNI_CHECK_EXCEPTION;; k x).
Proof.
  intros Hc Hk s. rewrite checked_call. cbn zeta.
  destruct (nonnull _); cbn; rewrite Hc; [reflexivity | apply Hk].
Qed.

Lemma no_array_ret {A} (a : A) : no_array_call (ret (W:=W) a).
Proof. now intros s. Qed.

Lemma no_array_call_direct d R recv mid :
  no_array_call (jni.call_direct vm d R recv mid).
Proof.
  destruct R; cbn; unfold env.CallMethod;
    (apply no_array_checked; [reflexivity | intros; apply no_array_ret]).
Qed.

Lemma no_array_foreign {A} c (ask : W -> Reply W A) :
  array_call c = false -> no_array_call (env.foreign c ask).
Proof. intros H s. cbn. now rewrite H. Qed.

Lemma no_array_lookup c (ask : W -> Reply W Z) :
  array_call c = false ->
  no_array_call (x <- env.foreign c ask;; jni.JNI_CHECK_EXCEPTION;; ret x).
Proof.
  intros H. apply no_array_checked; [exact H | intros; apply no_array_ret].
Qed.

(** C8: a call without arguments, for a return type of the dispatch table,
    goes through [Call(Static)<Type>Method] of that type's family, right
    after the lookups, and through no array-based primitive; it ends in the
    same state with the same result as the same call packed and dispatched
    through the table's slot, on a runtime whose array-based primitive, given
    the one-cell placeholder array, answers as the direct one. *)
Theorem C8_zero_argument_direct (R : CType) (sg : string) (F : Family) :
  jni.JNITypeTraits R = Some (sg, F) ->
  (forall w d recv mid,
     vm_CallMethodA vm w d F recv mid [jv_indeterminate]
     = vm_CallMethod vm w d F recv mid) ->
  (forall d recv mid s,
     exists rest,
       trace (jni.call_direct vm d R recv mid s)
       = EvCallMethod d F recv mid :: EvExceptionCheck :: rest /\
       forallb bridge_call rest = true) /\
  (forall obj name sig,
     exists m p,
       jni.CallMethod vm R obj name sig [] = Some m /\
       m = (cls <- env.GetObjectClass vm obj;;
            jni.scoped vm cls
              (mid <- jni.GetMethodID vm cls name sig;;
               jni.call_direct vm Instance R obj mid)) /\
       jni.CallMethod_packed vm R obj name sig [] = Some p /\
       no_array_call m /\
       forall s, same_result (m s) (p s)) /\
  (forall className name sig,
     exists m p,
       jni.CallStaticMethod vm R className name sig [] = Some m /\
       m = (cls <- jni.FindClass vm className;;
            jni.scoped vm cls
              (mid <- jni.GetStaticMethodID vm cls name sig;;
               jni.call_direct vm Static R cls mid)) /\
       jni.CallStaticMethod_packed vm R className name sig [] = Some p /\
       no_array_call m /\
       forall s, same_result (m s) (p s)).
Proof.
  intros HR Hvm.
  assert (Hslot : forall d, exists slot,
             jni.JNITypeTraits_method vm d R = Some slot).
  { intros d. unfold jni.JNITypeTraits_method. rewrite HR. now eexists. }
  split; [| split].
  - intros d recv mid s. now apply (call_direct_trace d R sg F).
  - intros obj name sig. destruct (Hslot Instance) as [slot Hs].
    eexists. eexists. split; [reflexivity |]. split; [reflexivity |].
    unfold jni.CallMethod_packed, jni.JNITypeTraits_CallMethod.
    rewrite Hs. cbn [mbind option_bind]. split; [reflexivity |]. split.
    + apply no_array_bind; [now apply no_array_foreign | intros cls].
      apply no_array_scoped, no_array_bind;
        [now apply no_array_lookup | intros mid].
      apply no_array_call_direct.
    + intros s. apply same_result_bind. intros cls s1.
      apply same_result_scoped, same_result_bind. intros mid s2.
      apply (call_direct_dispatched Instance R sg F); auto.
  - intros cn name sig. destruct (Hslot Static) as [slot Hs].
    eexists. eexists. split; [reflexivity |]. split; [reflexivity |].
    unfold jni.CallStaticMethod_packed, jni.JNITypeTraits_CallStaticMethod.
    rewrite Hs. cbn [mbind option_bind]. split; [reflexivity |]. split.
    + apply no_array_bind; [now apply no_array_lookup | intros cls].
      apply no_array_scoped, no_array_bind;
        [now apply no_array_lookup | intros mid].
      apply no_array_call_direct.
    + intros s. apply same_result_bind. intros cls s1.
      apply same_result_scoped, same_result_bind. intros mid s2.
      apply (call_direct_dispatched Static R sg F); auto.
Qed.

(** ** Field access *)

(** For [jobject] and [jstring] the two paths of [GetField]: with a
    signature the lookup uses it and the read is the [jobject] slot's, cast
    to [T]; without one the lookup uses [T]'s [signature] and the read is
    [T]'s slot. *)
Lemma GetField_reference_paths T sigT obj name :
  castable_with_slot T = true ->
  jni.JNITypeTraits_signature T = Some sigT ->
  exists slotObject slotT cast,
    jni.JNITypeTraits_GetField vm Tjobject = Some slotObject /\
    jni.JNITypeTraits_GetField vm T = Some slotT /\
    jni.static_cast_jobject T = Some cast /\
    (forall raw, cast (Val Tjobject raw) = Val T raw) /\
    (forall sig,
       jni.GetField vm T obj name (Some sig) =
         Some (cls <- env.GetObjectClass vm obj;;
               jni.scoped vm cls
                 (fid <- jni.GetFieldID vm cls name sig;;
                  v <- slotObject obj fid;;
                  ret (cast v)))) /\
    jni.GetField vm T obj name None =
      Some (cls <- env.GetObjectClass vm obj;;
            jni.scoped vm cls
              (fid <- jni.GetFieldID vm cls name sigT;;
               slotT obj fid)).
Proof.
  destruct T; try discriminate; intros _ [= <-];
    do 3 eexists; repeat split; reflexivity.
Qed.

(** C9, at the inputs where the header departs from it: [GetField<T>] and
    [GetStaticField<T>] are well-formed for [jobject] and [jstring] only.
    For a primitive [T] the [static_cast<T>] of the signature arm is
    ill-formed, for a reference type without a specialization the
    [JNITypeTraits<T>] operands are, whether or not a signature is passed;
    so [GetField<jint>(env, obj, "count")] does not exist, nor does a
    [GetField<jclass>] with a signature. *)
Theorem C9_GetField_instantiations :
  (forall T obj name sig,
     instantiates (jni.GetField vm T obj name sig) = castable_with_slot T) /\
  (forall T className name sig,
     instantiates (jni.GetStaticField vm T className name sig)
     = castable_with_slot T) /\
  (forall obj, jni.GetField vm Tjint obj "count" None = None) /\
  jni.GetStaticField vm Tjlong "com/example/Config" "TIMEOUT_MS" None = None /\
  (forall obj name sig, jni.GetField vm Tjclass obj name (Some sig) = None).
Proof.
  repeat split; intros; try reflexivity; now destruct T.
Qed.

(** * Further properties of the header *)

(** ** The bridge and the unchecked string helpers *)

(** Run again on the state it left, by a handler or by the next wrapper,
    [JNI_CHECK_EXCEPTION] finds nothing: a fault is reported once. *)
Theorem check_reports_once (s : St W) :
  jni.JNI_CHECK_EXCEPTION (st (jni.JNI_CHECK_EXCEPTION s)) =
    {| st := st (jni.JNI_CHECK_EXCEPTION s);
       trace := [EvExceptionCheck];
       outcome := Return tt |}.
Proof.
  apply check_clear, nonnull_false, check_leaves_nothing_pending.
Qed.

(** The wrappers decide on the pending slot alone.  Entered with a fault
    already pending, [FindClass] throws that fault although its own call
    raised nothing; so the fault [StringToJString] leaves behind when
    [NewStringUTF] raises is thrown by the next guarded call. *)
Theorem stale_fault_surfaces :
  (forall n (s : St W),
     pending s <> nullptr ->
     thrown (vm_FindClass vm (world s) n) = nullptr ->
     outcome (jni.FindClass vm n s) = Throw (ForeignFault (pending s))) /\
  (forall text n (s : St W),
     let r := vm_NewStringUTF vm (world s) (until_nul text) in
     thrown r <> nullptr ->
     thrown (vm_FindClass vm (now r) n) = nullptr ->
     outcome (jni.StringToJString vm text s) = Return (ret_val r) /\
     outcome ((_ <- jni.StringToJString vm text;; jni.FindClass vm n) s)
     = Throw (ForeignFault (thrown r))).
Proof.
  split.
  - intros n s Hp Hq. apply nonnull_true in Hp.
    unfold jni.FindClass, env.FindClass. rewrite checked_call. cbn.
    rewrite Hq. cbn. now rewrite Hp.
  - intros text n s r Hr Hq. split; [reflexivity |].
    unfold jni.StringToJString, env.NewStringUTF. rewrite foreign_then.
    apply nonnull_true in Hr.
    unfold jni.FindClass, env.FindClass. rewrite checked_call. cbn.
    fold r. rewrite Hq, Hr. cbn. now rewrite Hr.
Qed.

(** [JStringToString] never clears or checks the pending slot: afterwards it
    holds what [GetStringUTFChars] raised, if it was called and raised, and
    what it held before otherwise. *)
Theorem JStringToString_pending jstr (s : St W) :
  pending (st (jni.JStringToString vm jstr s)) =
    if nonnull jstr
       && nonnull (thrown (vm_GetStringUTFChars vm (world s) jstr))
    then thrown (vm_GetStringUTFChars vm (world s) jstr)
    else pending s.
Proof.
  unfold jni.JStringToString.
  destruct (nonnull jstr); cbn [negb andb]; [| reflexivity].
  unfold bind, env.GetStringUTFChars. cbn [env.foreign outcome st].
  destruct (ret_val (vm_GetStringUTFChars vm (world s) jstr)); reflexivity.
Qed.

Lemma until_nul_has_no_nul t : no_nul (until_nul t) = true.
Proof.
  induction t as [| c t IH]; cbn; [reflexivity |].
  destruct (Ascii.eqb c zero) eqn:E; cbn; [reflexivity |].
  now rewrite E, IH.
Qed.

(** For any text, with or without NUL bytes, the runtime is handed the text
    up to its first NUL, and converting the new handle back returns exactly
    that prefix, on a runtime that creates the string and exposes its
    characters. *)
Theorem round_trip_up_to_nul :
  forall text (s : St W),
    let n := vm_NewStringUTF vm (world s) (until_nul text) in
    ret_val n <> nullptr ->
    ret_val (vm_GetStringUTFChars vm (now n) (ret_val n))
    = Some (until_nul text) ->
    trace (jni.StringToJString vm text s) = [EvNewStringUTF (until_nul text)]
    /\ outcome ((h <- jni.StringToJString vm text;;
                 jni.JStringToString vm h) s)
       = Return (until_nul text)
    /\ no_nul (until_nul text) = true.
Proof.
  intros text s n Hh Hc. split; [reflexivity |].
  split; [| apply until_nul_has_no_nul].
  unfold jni.StringToJString, env.NewStringUTF, jni.JStringToString.
  rewrite foreign_then. apply nonnull_true in Hh.
  cbn [env.foreign st world]. fold n. rewrite Hh. cbn [negb].
  unfold env.GetStringUTFChars. rewrite foreign_then. cbn [world].
  rewrite Hc. cbn. now rewrite until_nul_idem.
Qed.

(** ** The packer's array and the guard's handle *)

Lemma cell_of_written a (s : St W) c :
  outcome (cell_of vm a s) = Return c -> c <> jv_indeterminate.
Proof.
  destruct a as [| | | | | | | | | | | |[]]; cbn; intros [= <-];
    discriminate.
Qed.

(** With at least one argument every cell of the array is written; the
    indeterminate cell exists only as the placeholder of the empty list. *)
Theorem packer_writes_every_cell :
  (forall s : St W,
     outcome (jni.ArgsToJValues vm [] s) = Return [jv_indeterminate]) /\
  (forall args (s : St W) cells,
     args <> [] ->
     outcome (jni.ArgsToJValues vm args s) = Return cells ->
     length cells = length args /\
     Forall (fun c => c <> jv_indeterminate) cells).
Proof.
  split; [reflexivity |].
  intros args s cells Hne. unfold jni.ArgsToJValues. cbn zeta.
  rewrite ArgsToJValues_size.
  destruct (convertArgs_cells args 0
              (replicate (Nat.max (length args) 1) jv_indeterminate) s)
    as (cells' & Hout & Hl & _ & Hcells).
  { rewrite length_replicate. lia. }
  rewrite Hout. intros [= <-].
  assert (Hlen : length cells' = length args).
  { rewrite Hl, length_replicate. destruct args; [congruence | cbn; lia]. }
  split; [exact Hlen |].
  apply Forall_lookup. intros i c Hi.
  assert (Hlt : (i < length args)%nat).
  { rewrite <- Hlen. eapply lookup_lt_Some, Hi. }
  destruct (lookup_lt_is_Some_2 args i Hlt) as [a Ha].
  destruct (Hcells i a Ha) as (c' & Hc' & Hi'). cbn in Hi'.
  rewrite Hi in Hi'. injection Hi' as <-.
  eapply cell_of_written, Hc'.
Qed.

Lemma guard_uses_null script :
  fst (guard_uses {| jni.ref_ := nullptr |} script)
  = map (fun _ => nullptr) script.
Proof.
  induction script as [| u script IH]; [reflexivity |].
  destruct u; cbn; destruct (guard_uses _ script); cbn in *; now rewrite IH.
Qed.

(** Until the first [release] every [get] returns the held handle; the first
    [release] returns it too, and from then on [get] and [release] return
    null. *)
Theorem guard_handles :
  (forall g script,
     existsb is_release script = false ->
     fst (guard_uses g script) = map (fun _ => jni.ref_ g) script) /\
  (forall g script,
     fst (guard_uses g (use_release :: script))
     = jni.ref_ g :: map (fun _ => nullptr) script).
Proof.
  split.
  - intros g script. induction script as [| u script IH]; [reflexivity |].
    destruct u; cbn; [| discriminate].
    intros H. specialize (IH H). destruct (guard_uses g script).
    cbn in *. now rewrite IH.
  - intros g script. cbn. rewrite <- guard_uses_null.
    now destruct (guard_uses _ script).
Qed.

(** ** The high-level operations *)

Lemma finishing_clears {A} (m : M W A) :
  finishing vm m -> forall s, pending (st (m s)) = nullptr.
Proof.
  induction 1 as [A B c ask b | A B m k Hm _ IHk | A B m b _ IH
                 | A cls body _ IH]; intros s.
  - rewrite checked_call. cbn zeta.
    destruct (nonnull (pending (st (env.foreign c ask s)))) eqn:E;
      [reflexivity |].
    cbn [ret st pending]. now apply nonnull_false.
  - unfold bind. destruct (outcome (m s)) as [a | e] eqn:E; cbn [st].
    + apply IHk.
    + eapply wrapper_faults; eauto.
  - unfold bind. destruct (outcome (m s)) as [a | e]; cbn [st ret]; apply IH.
  - unfold jni.scoped. cbn [st]. rewrite destroy_keeps_pending. apply IH.
Qed.

Lemma finishing_call_direct d R recv mid :
  finishing vm (jni.call_direct vm d R recv mid).
Proof.
  destruct R; cbn; unfold env.CallMethod;
    first [ apply (f_checked vm _ _ (fun _ => Void))
          | apply (f_checked vm _ _ (Val _)) ].
Qed.

Lemma finishing_method d T slot recv mid args :
  jni.JNITypeTraits_method vm d T = Some slot ->
  finishing vm (slot recv mid args).
Proof.
  unfold jni.JNITypeTraits_method.
  destruct (jni.JNITypeTraits T) as [[sg F] |]; [| discriminate].
  intros [= <-]. apply f_checked.
Qed.

Lemma finishing_field d T slot recv fid :
  jni.JNITypeTraits_field vm d T = Some slot -> finishing vm (slot recv fid).
Proof.
  unfold jni.JNITypeTraits_field.
  destruct T; cbn; intros [= <-]; apply f_checked.
Qed.

Lemma finishing_CallMethod R o n g args m :
  jni.CallMethod vm R o n g args = Some m -> finishing vm m.
Proof.
  destruct args as [| a args]; cbn [jni.CallMethod].
  - intros [= <-].
    apply f_bind; [apply wrapper_GetObjectClass | intros cls].
    apply f_scoped, f_bind; [apply wrapper_GetMethodID | intros mid].
    apply finishing_call_direct.
  - unfold jni.CallMethod_packed, jni.JNITypeTraits_CallMethod.
    destruct (jni.JNITypeTraits_method vm Instance R) as [slot |] eqn:E;
      cbn [mbind option_bind]; [| discriminate].
    intros [= <-].
    apply f_bind; [apply wrapper_GetObjectClass | intros cls].
    apply f_scoped, f_bind; [apply wrapper_GetMethodID | intros mid].
    apply f_bind; [apply wrapper_ArgsToJValues | intros vs].
    now apply (finishing_method Instance R).
Qed.

Lemma finishing_CallStaticMethod R c n g args m :
  jni.CallStaticMethod vm R c n g args = Some m -> finishing vm m.
Proof.
  destruct args as [| a args]; cbn [jni.CallStaticMethod].
  - intros [= <-].
    apply f_bind; [apply wrapper_FindClass | intros cls].
    apply f_scoped, f_bind; [apply wrapper_GetStaticMethodID | intros mid].
    apply finishing_call_direct.
  - unfold jni.CallStaticMethod_packed, jni.JNITypeTraits_CallStaticMethod.
    destruct (jni.JNITypeTraits_method vm Static R) as [slot |] eqn:E;
      cbn [mbind option_bind]; [| discriminate].
    intros [= <-].
    apply f_bind; [apply wrapper_FindClass | intros cls].
    apply f_scoped, f_bind; [apply wrapper_GetStaticMethodID | intros mid].
    apply f_bind; [apply wrapper_ArgsToJValues | intros vs].
    now apply (finishing_method Static R).
Qed.

Lemma finishing_NewObject c g args :
  finishing vm (jni.NewObject vm c g args).
Proof.
  unfold jni.NewObject.
  apply f_bind; [apply wrapper_FindClass | intros cls].
  apply f_scoped, f_bind; [apply wrapper_GetMethodID | intros mid].
  apply f_bind; [apply wrapper_ArgsToJValues | intros vs].
  unfold env.NewObjectA. apply (f_checked vm _ _ (fun x => x)).
Qed.

Lemma finishing_GetField T o n g m :
  jni.GetField vm T o n g = Some m -> finishing vm m.
Proof.
  unfold jni.GetField, jni.JNITypeTraits_GetField.
  destruct (jni.JNITypeTraits_signature T) as [sigT |]; [| discriminate].
  destruct (jni.JNITypeTraits_field vm Instance T) as [slotT |] eqn:ET;
    [| discriminate].
  destruct (jni.JNITypeTraits_field vm Instance Tjobject) as [slotO |] eqn:EO;
    [| discriminate].
  destruct (jni.static_cast_jobject T) as [cast |]; [| discriminate].
  cbn. intros [= <-].
  apply f_bind; [apply wrapper_GetObjectClass | intros cls].
  apply f_scoped, f_bind; [apply wrapper_GetFieldID | intros fid].
  destruct g.
  - apply f_then_ret. now apply (finishing_field Instance Tjobject).
  - now apply (finishing_field Instance T).
Qed.

Lemma finishing_GetStaticField T c n g m :
  jni.GetStaticField vm T c n g = Some m -> finishing vm m.
Proof.
  unfold jni.GetStaticField, jni.JNITypeTraits_GetStaticField.
  destruct (jni.JNITypeTraits_signature T) as [sigT |]; [| discriminate].
  destruct (jni.JNITypeTraits_field vm Static T) as [slotT |] eqn:ET;
    [| discriminate].
  destruct (jni.JNITypeTraits_field vm Static Tjobject) as [slotO |] eqn:EO;
    [| discriminate].
  destruct (jni.static_cast_jobject T) as [cast |]; [| discriminate].
  cbn. intros [= <-].
  apply f_bind; [apply wrapper_FindClass | intros cls].
  apply f_scoped, f_bind; [apply wrapper_GetStaticFieldID | intros fid].
  destruct g.
  - apply f_then_ret. now apply (finishing_field Static Tjobject).
  - now apply (finishing_field Static T).
Qed.

(** Whatever was pending when it was entered and however it is left, a
    high-level operation leaves no Java exception pending. *)
Theorem high_level_leaves_nothing_pending :
  (forall R obj name sig args m (s : St W),
     jni.CallMethod vm R obj name sig args = Some m ->
     pending (st (m s)) = nullptr) /\
  (forall R className name sig args m (s : St W),
     jni.CallStaticMethod vm R className name sig args = Some m ->
     pending (st (m s)) = nullptr) /\
  (forall className sig args (s : St W),
     pending (st (jni.NewObject vm className sig args s)) = nullptr) /\
  (forall T obj name sig m (s : St W),
     jni.GetField vm T obj name sig = Some m ->
     pending (st (m s)) = nullptr) /\
  (forall T className name sig m (s : St W),
     jni.GetStaticField vm T className name sig = Some m ->
     pending (st (m s)) = nullptr).
Proof.
  repeat split; intros.
  - eapply finishing_clears, finishing_CallMethod; eauto.
  - eapply finishing_clears, finishing_CallStaticMethod; eauto.
  - apply finishing_clears, finishing_NewObject.
  - eapply finishing_clears, finishing_GetField; eauto.
  - eapply finishing_clears, finishing_GetStaticField; eauto.
Qed.

(** Which instantiations of the call templates exist: without arguments
    every return type of the chain does, reference types without a
    [JNITypeTraits] specialization included; with arguments only the types
    of the table do. *)
Theorem call_instantiations :
  (forall R obj name sig args,
     instantiates (jni.CallMethod vm R obj name sig args) =
       match args with
       | [] => true
       | _ :: _ => instantiates (jni.JNITypeTraits R)
       end) /\
  (forall R className name sig args,
     instantiates (jni.CallStaticMethod vm R className name sig args) =
       match args with
       | [] => true
       | _ :: _ => instantiates (jni.JNITypeTraits R)
       end).
Proof.
  split; intros R o n g [| a args]; try reflexivity; now destruct R.
Qed.

Lemma then_ret_run {A B} (m : M W A) (b : A -> B) s :
  (x <- m;; ret (b x)) s =
    {| st := st (m s); trace := trace (m s);
       outcome := match outcome (m s) with
                  | Return a => Return (b a)
                  | Throw e => Throw e
                  end |}.
Proof.
  unfold bind. destruct (outcome (m s)); cbn; [| reflexivity].
  now rewrite app_nil_r.
Qed.

Lemma bind_run_ext {A B} (m : M W A) (k1 k2 : A -> M W B) s :
  (forall x s', k1 x s' = k2 x s') -> (x <- m;; k1 x) s = (x <- m;; k2 x) s.
Proof.
  intros H. unfold bind. destruct (outcome (m s)); [| reflexivity].
  now rewrite H.
Qed.

Lemma scoped_run_ext {A} cls (b1 b2 : M W A) s :
  b1 s = b2 s -> jni.scoped vm cls b1 s = jni.scoped vm cls b2 s.
Proof. intros H. unfold jni.scoped. now rewrite H. Qed.

(** For [jobject] and [jstring], passing the type's own signature is the
    same as passing none: the two reads run alike, call for call. *)
Theorem GetField_own_signature T sigT :
  castable_with_slot T = true ->
  jni.JNITypeTraits_signature T = Some sigT ->
  (forall obj name, exists m1 m2,
     jni.GetField vm T obj name (Some sigT) = Some m1 /\
     jni.GetField vm T obj name None = Some m2 /\
     forall s, m1 s = m2 s) /\
  (forall className name, exists m1 m2,
     jni.GetStaticField vm T className name (Some sigT) = Some m1 /\
     jni.GetStaticField vm T className name None = Some m2 /\
     forall s, m1 s = m2 s).
Proof.
  intros HT Hsig.
  destruct T; try discriminate; injection Hsig as <-; split; intros;
    (eexists; eexists; split; [reflexivity |]; split; [reflexivity |];
     intros s; apply bind_run_ext; intros cls s1;
     apply scoped_run_ext, bind_run_ext; intros fid s2;
     rewrite then_ret_run;
     unfold env.GetField; rewrite !checked_call; cbn zeta;
     destruct (nonnull _); reflexivity).
Qed.

(** *** Running the pieces *)

Lemma foreign_bind_run {A B} c (ask : W -> Reply W A) (k : A -> M W B) s :
  (x <- env.foreign c ask;; k x) s =
    let r := k (ret_val (ask (world s))) (st (env.foreign c ask s)) in
    {| st := st r; trace := c :: trace r; outcome := outcome r |}.
Proof. reflexivity. Qed.

Lemma foreign_quiet_state {A} c (ask : W -> Reply W A) s :
  pending s = nullptr -> thrown (ask (world s)) = nullptr ->
  st (env.foreign c ask s)
  = {| world := now (ask (world s)); pending := nullptr |}.
Proof. intros Hp Hq. cbn. now rewrite Hq, Hp. Qed.

Lemma scoped_run {A} cls (body : M W A) s :
  jni.scoped vm cls body s =
    {| st := st (jni.ScopedLocalRef_destroy vm (jni.ScopedLocalRef_new cls)
                   (st (body s)));
       trace := trace (body s) ++ class_release cls;
       outcome := outcome (body s) |}.
Proof. unfold jni.scoped. now rewrite destroy_trace. Qed.

Lemma lookup_raises_run {B} c (ask : W -> Reply W Z) (k : Z -> M W B) s :
  thrown (ask (world s)) <> nullptr ->
  (id <- (x <- env.foreign c ask;; jni.JNI_CHECK_EXCEPTION;; ret x);; k id) s
  = {| st := {| world := now (ask (world s)); pending := nullptr |};
       trace := c :: bridge_throws;
       outcome := Throw (ForeignFault (thrown (ask (world s)))) |}.
Proof.
  intros H. erewrite bind_throw; rewrite checked_call_raises by exact H;
    reflexivity.
Qed.

Lemma lookup_quiet_run {B} c (ask : W -> Reply W Z) (k : Z -> M W B) s :
  pending s = nullptr -> thrown (ask (world s)) = nullptr ->
  (id <- (x <- env.foreign c ask;; jni.JNI_CHECK_EXCEPTION;; ret x);; k id) s
  = let r := k (ret_val (ask (world s)))
               {| world := now (ask (world s)); pending := nullptr |} in
    {| st := st r; trace := c :: EvExceptionCheck :: trace r;
       outcome := outcome r |}.
Proof.
  intros Hp H. erewrite bind_return;
    rewrite checked_call_quiet by assumption; reflexivity.
Qed.

(** A guarded call kept as the result: what it throws or returns is read off
    the pending slot after the call. *)
Lemma checked_ret_run {A B} c (ask : W -> Reply W A) (b : A -> B) s :
  let r := ask (world s) in
  let h := if nonnull (thrown r) then thrown r else pending s in
  (x <- env.foreign c ask;; jni.JNI_CHECK_EXCEPTION;; ret (b x)) s =
    {| st := {| world := now r; pending := nullptr |};
       trace := c :: (if nonnull h then bridge_throws
                      else [EvExceptionCheck]);
       outcome := bridged h (b (ret_val r)) |}.
Proof.
  intros r h. rewrite checked_call. cbn zeta. unfold bridged.
  cbn [env.foreign st pending world]. fold r. fold h.
  destruct (nonnull h) eqn:E; [reflexivity |].
  apply nonnull_false in E. cbn. now rewrite E.
Qed.

(** *** A failed lookup stops the operation *)

(** When the member lookup raises, [CallMethod] and [GetField] make no
    further call but the bridge's and the guard's: no argument is converted,
    nothing is invoked or read, and the class reference is released.  When
    the class lookup raises, [CallStaticMethod], [NewObject] and
    [GetStaticField] stop right there, before any guard exists. *)
Theorem failed_lookup_stops :
  (forall R obj name sig args m (s : St W),
     jni.CallMethod vm R obj name sig args = Some m ->
     let r0 := vm_GetObjectClass vm (world s) obj in
     let r1 := vm_GetID vm (now r0) Instance Method (ret_val r0) name sig in
     thrown r1 <> nullptr ->
     trace (m s) =
       EvGetObjectClass obj
       :: EvGetID Instance Method (ret_val r0) name sig
       :: bridge_throws ++ class_release (ret_val r0)) /\
  (forall T obj name sig sigT m (s : St W),
     jni.GetField vm T obj name sig = Some m ->
     jni.JNITypeTraits_signature T = Some sigT ->
     let fieldSig := match sig with Some g => g | None => sigT end in
     let r0 := vm_GetObjectClass vm (world s) obj in
     let r1 := vm_GetID vm (now r0) Instance Field (ret_val r0) name
                 fieldSig in
     thrown r1 <> nullptr ->
     trace (m s) =
       EvGetObjectClass obj
       :: EvGetID Instance Field (ret_val r0) name fieldSig
       :: bridge_throws ++ class_release (ret_val r0)) /\
  (forall R className name sig args m (s : St W),
     jni.CallStaticMethod vm R className name sig args = Some m ->
     thrown (vm_FindClass vm (world s) className) <> nullptr ->
     trace (m s) = EvFindClass className :: bridge_throws) /\
  (forall className sig args (s : St W),
     thrown (vm_FindClass vm (world s) className) <> nullptr ->
     trace (jni.NewObject vm className sig args s)
     = EvFindClass className :: bridge_throws) /\
  (forall T className name sig m (s : St W),
     jni.GetStaticField vm T className name sig = Some m ->
     thrown (vm_FindClass vm (world s) className) <> nullptr ->
     trace (m s) = EvFindClass className :: bridge_throws).
Proof.
  repeat split.
  - intros R obj name sig args m s Hm r0 r1 H.
    apply CallMethod_body in Hm as [body ->].
    unfold env.GetObjectClass. rewrite foreign_bind_run. cbn zeta.
    rewrite scoped_run. unfold jni.GetMethodID, env.GetID.
    now rewrite lookup_raises_run.
  - intros T obj name sig sigT m s Hm Hsig fieldSig r0 r1 H.
    apply GetField_body in Hm as (sigT' & body & Hsig' & ->).
    rewrite Hsig in Hsig'. injection Hsig' as <-.
    unfold env.GetObjectClass. rewrite foreign_bind_run. cbn zeta.
    rewrite scoped_run. unfold jni.GetFieldID, env.GetID.
    now rewrite lookup_raises_run.
  - intros R cn name sig args m s Hm H.
    apply CallStaticMethod_body in Hm as [body ->].
    unfold jni.FindClass, env.FindClass. now rewrite lookup_raises_run.
  - intros cn sig args s H.
    unfold jni.NewObject, jni.FindClass, env.FindClass.
    now rewrite lookup_raises_run.
  - intros T cn name sig m s Hm H.
    apply GetStaticField_body in Hm as (sigT' & body & Hsig' & ->).
    unfold jni.FindClass, env.FindClass. now rewrite lookup_raises_run.
Qed.

(** *** What the calls return *)

Lemma raised_or_null h : (if nonnull h then h else nullptr) = h.
Proof.
  destruct (nonnull h) eqn:E; [reflexivity |]. now apply nonnull_false in E.
Qed.

(** [CallMethod] and [CallStaticMethod] without arguments, the lookups done:
    the method is invoked once, by the direct primitive of the return type's
    family on the looked-up identifier; the operation throws what that call
    raised and otherwise returns its answer, typed as [RetType]; the class
    reference is released in either case. *)
Theorem call_without_arguments (R : CType) (sg : string) (F : Family) :
  jni.JNITypeTraits R = Some (sg, F) ->
  (forall obj name sig (s : St W),
     let r0 := vm_GetObjectClass vm (world s) obj in
     let r1 := vm_GetID vm (now r0) Instance Method (ret_val r0) name sig in
     let r2 := vm_CallMethod vm (now r1) Instance F obj (ret_val r1) in
     pending s = nullptr -> thrown r0 = nullptr -> thrown r1 = nullptr ->
     exists m,
       jni.CallMethod vm R obj name sig [] = Some m /\
       outcome (m s) = bridged (thrown r2) (jni.typed R (ret_val r2)) /\
       trace (m s) =
         ([EvGetObjectClass obj;
          EvGetID Instance Method (ret_val r0) name sig; EvExceptionCheck;
          EvCallMethod Instance F obj (ret_val r1)]
         ++ (if nonnull (thrown r2) then bridge_throws
             else [EvExceptionCheck])
         ++ class_release (ret_val r0))%list) /\
  (forall className name sig (s : St W),
     let r0 := vm_FindClass vm (world s) className in
     let r1 := vm_GetID vm (now r0) Static Method (ret_val r0) name sig in
     let r2 := vm_CallMethod vm (now r1) Static F (ret_val r0) (ret_val r1) in
     pending s = nullptr -> thrown r0 = nullptr -> thrown r1 = nullptr ->
     exists m,
       jni.CallStaticMethod vm R className name sig [] = Some m /\
       outcome (m s) = bridged (thrown r2) (jni.typed R (ret_val r2)) /\
       trace (m s) =
         ([EvFindClass className; EvExceptionCheck;
          EvGetID Static Method (ret_val r0) name sig; EvExceptionCheck;
          EvCallMethod Static F (ret_val r0) (ret_val r1)]
         ++ (if nonnull (thrown r2) then bridge_throws
             else [EvExceptionCheck])
         ++ class_release (ret_val r0))%list).
Proof.
  intros HR. split.
  - intros obj name sig s r0 r1 r2 Hp H0 H1.
    eexists. split; [reflexivity |].
    unfold env.GetObjectClass. rewrite foreign_bind_run. cbn zeta.
    rewrite foreign_quiet_state; [| exact Hp | exact H0]. rewrite scoped_run.
    unfold jni.GetMethodID, env.GetID.
    rewrite lookup_quiet_run; [| reflexivity | exact H1]. cbn zeta.
    rewrite (call_direct_family Instance R sg F) by exact HR.
    unfold env.CallMethod. rewrite checked_ret_run. cbn zeta.
    cbn [pending world]. rewrite raised_or_null. split; reflexivity.
  - intros cn name sig s r0 r1 r2 Hp H0 H1.
    eexists. split; [reflexivity |].
    unfold jni.FindClass, env.FindClass.
    rewrite lookup_quiet_run; [| exact Hp | exact H0]. cbn zeta.
    rewrite scoped_run. unfold jni.GetStaticMethodID, env.GetID.
    rewrite lookup_quiet_run; [| reflexivity | exact H1]. cbn zeta.
    rewrite (call_direct_family Static R sg F) by exact HR.
    unfold env.CallMethod. rewrite checked_ret_run. cbn zeta.
    cbn [pending world]. rewrite raised_or_null. split; reflexivity.
Qed.

Lemma ArgsToJValues_returns args (s : St W) :
  exists cells, outcome (jni.ArgsToJValues vm args s) = Return cells.
Proof.
  unfold jni.ArgsToJValues. cbn zeta. rewrite ArgsToJValues_size.
  destruct (convertArgs_cells args 0
              (replicate (Nat.max (length args) 1) jv_indeterminate) s)
    as (cells & Hout & _).
  { rewrite length_replicate. lia. }
  now exists cells.
Qed.

(** [CallMethod] with arguments, the lookups done: the arguments are packed
    after the method lookup, and [Call<Type>MethodA] is invoked on the
    packer's array whether or not a [NewStringUTF] of the packer left a
    fault pending; the operation throws what the invocation raised, else
    what the packer left pending, and otherwise returns the invocation's
    answer. *)
Theorem call_with_arguments (R : CType) (sg : string) (F : Family) :
  jni.JNITypeTraits R = Some (sg, F) ->
  forall obj name sig a rest (s : St W) cells,
    let r0 := vm_GetObjectClass vm (world s) obj in
    let r1 := vm_GetID vm (now r0) Instance Method (ret_val r0) name sig in
    let p := jni.ArgsToJValues vm (a :: rest)
               {| world := now r1; pending := nullptr |} in
    let r2 := vm_CallMethodA vm (world (st p)) Instance F obj (ret_val r1)
                cells in
    let h := if nonnull (thrown r2) then thrown r2 else pending (st p) in
    pending s = nullptr -> thrown r0 = nullptr -> thrown r1 = nullptr ->
    outcome p = Return cells ->
    exists m,
      jni.CallMethod vm R obj name sig (a :: rest) = Some m /\
      outcome (m s) = bridged h (jni.typed R (ret_val r2)) /\
      trace (m s) =
        ([EvGetObjectClass obj;
         EvGetID Instance Method (ret_val r0) name sig; EvExceptionCheck]
        ++ trace p
        ++ [EvCallMethodA Instance F obj (ret_val r1) cells]
        ++ (if nonnull h then bridge_throws else [EvExceptionCheck])
        ++ class_release (ret_val r0))%list.
Proof.
  intros HR obj name sig a rest s cells r0 r1 p r2 h Hp H0 H1 Hcells.
  cbn [jni.CallMethod].
  unfold jni.CallMethod_packed, jni.JNITypeTraits_CallMethod,
    jni.JNITypeTraits_method. rewrite HR. cbn [mbind option_bind].
  eexists. split; [reflexivity |].
  unfold env.GetObjectClass. rewrite foreign_bind_run. cbn zeta.
  rewrite foreign_quiet_state; [| exact Hp | exact H0]. rewrite scoped_run.
  unfold jni.GetMethodID, env.GetID.
  rewrite lookup_quiet_run; [| reflexivity | exact H1]. cbn zeta.
  fold r0. fold r1.
  rewrite (bind_return (jni.ArgsToJValues vm (a :: rest)) _ _ cells)
    by exact Hcells.
  fold p. unfold env.CallMethodA. rewrite checked_ret_run. cbn zeta.
  fold r2. fold h. cbn [outcome trace].
  split; [reflexivity |].
  cbn [app]. now rewrite <- !app_assoc.
Qed.

(** [NewObject], the lookups done: the constructor is looked up as the
    instance method ["<init>"] of the class found, the arguments are packed
    (one placeholder cell when there are none) and [NewObjectA] is called on
    that array; the operation throws what the construction raised, else what
    the packer left pending, and otherwise returns the new object. *)
Theorem NewObject_constructs :
  forall className sig args (s : St W) cells,
    let r0 := vm_FindClass vm (world s) className in
    let r1 := vm_GetID vm (now r0) Instance Method (ret_val r0) "<init>"
                sig in
    let p := jni.ArgsToJValues vm args
               {| world := now r1; pending := nullptr |} in
    let r2 := vm_NewObjectA vm (world (st p)) (ret_val r0) (ret_val r1)
                cells in
    let h := if nonnull (thrown r2) then thrown r2 else pending (st p) in
    pending s = nullptr -> thrown r0 = nullptr -> thrown r1 = nullptr ->
    outcome p = Return cells ->
    outcome (jni.NewObject vm className sig args s) = bridged h (ret_val r2)
    /\ trace (jni.NewObject vm className sig args s) =
         ([EvFindClass className; EvExceptionCheck;
          EvGetID Instance Method (ret_val r0) "<init>" sig;
          EvExceptionCheck]
         ++ trace p
         ++ [EvNewObjectA (ret_val r0) (ret_val r1) cells]
         ++ (if nonnull h then bridge_throws else [EvExceptionCheck])
         ++ class_release (ret_val r0))%list.
Proof.
  intros cn sig args s cells r0 r1 p r2 h Hp H0 H1 Hcells.
  unfold jni.NewObject, jni.FindClass, env.FindClass.
  rewrite lookup_quiet_run; [| exact Hp | exact H0]. cbn zeta.
  rewrite scoped_run. unfold jni.GetMethodID, env.GetID.
  rewrite lookup_quiet_run; [| reflexivity | exact H1]. cbn zeta.
  fold r0. fold r1.
  rewrite (bind_return (jni.ArgsToJValues vm args) _ _ cells)
    by exact Hcells.
  fold p. unfold env.NewObjectA.
  rewrite (checked_ret_run _ _ (fun x => x)). cbn zeta.
  fold r2. fold h. cbn [outcome trace].
  split; [reflexivity |].
  cbn [app]. now rewrite <- !app_assoc.
Qed.

(** *** What is released *)

Lemma guardless_ret {A} (a : A) : guardless (ret (W:=W) a).
Proof. now intros s. Qed.

Lemma guardless_foreign {A} c (ask : W -> Reply W A) :
  is_delete c = false -> guardless (env.foreign c ask).
Proof. intros H s. cbn. now rewrite H. Qed.

Lemma guardless_bind {A B} (m : M W A) (k : A -> M W B) :
  guardless m -> (forall x, guardless (k x)) -> guardless (x <- m;; k x).
Proof.
  intros Hm Hk s. unfold bind. destruct (outcome (m s)) as [a | e]; cbn.
  - now rewrite existsb_app, Hm, Hk.
  - apply Hm.
Qed.

Lemma guardless_checked {A B} c (ask : W -> Reply W A) (k : A -> M W B) :
  is_delete c = false -> (forall x, guardless (k x)) ->
  guardless (x <- env.foreign c ask;; jni.JNI_CHECK_EXCEPTION;; k x).
Proof.
  intros Hc Hk s. rewrite checked_call. cbn zeta.
  destruct (nonnull _); cbn; rewrite Hc; [reflexivity | apply Hk].
Qed.

Lemma guardless_lookup c (ask : W -> Reply W Z) :
  is_delete c = false ->
  guardless (x <- env.foreign c ask;; jni.JNI_CHECK_EXCEPTION;; ret x).
Proof.
  intros H. apply guardless_checked; [exact H | intros; apply guardless_ret].
Qed.

Lemma guardless_ArgsToJValues args : guardless (jni.ArgsToJValues vm args).
Proof.
  intros s. unfold jni.ArgsToJValues. cbn zeta. rewrite convertArgs_trace.
  induction (string_args args) as [| t ts IH]; [reflexivity | exact IH].
Qed.

Lemma guardless_call_direct d R recv mid :
  guardless (jni.call_direct vm d R recv mid).
Proof.
  destruct R; cbn; unfold env.CallMethod;
    (apply guardless_checked; [reflexivity | intros; apply guardless_ret]).
Qed.

Lemma guardless_method d T slot recv mid args :
  jni.JNITypeTraits_method vm d T = Some slot ->
  guardless (slot recv mid args).
Proof.
  unfold jni.JNITypeTraits_method.
  destruct (jni.JNITypeTraits T) as [[sg F] |]; [| discriminate].
  intros [= <-]. unfold env.CallMethodA.
  apply guardless_checked; [reflexivity | intros; apply guardless_ret].
Qed.

Lemma guardless_field d T slot recv fid :
  jni.JNITypeTraits_field vm d T = Some slot -> guardless (slot recv fid).
Proof.
  unfold jni.JNITypeTraits_field.
  destruct T; cbn; intros [= <-]; unfold env.GetField;
    (apply guardless_checked; [reflexivity | intros; apply guardless_ret]).
Qed.

Lemma filter_none {X} (f : X -> bool) l :
  existsb f l = false -> List.filter f l = [].
Proof.
  induction l as [| x l IH]; cbn; [reflexivity |].
  destruct (f x); cbn; [discriminate | exact IH].
Qed.

Lemma class_release_deletes cls :
  List.filter is_delete (class_release cls) = class_release cls.
Proof. unfold class_release. now destruct (nonnull cls). Qed.

(** A guarded block around calls that release nothing. *)
Lemma block_deletes {B} (pro : M W jclass) (body : jclass -> M W B) s :
  guardless pro -> (forall cls, guardless (body cls)) ->
  List.filter is_delete
    (trace ((cls <- pro;; jni.scoped vm cls (body cls)) s))
  = match outcome (pro s) with
    | Return cls => class_release cls
    | Throw _ => []
    end.
Proof.
  intros Hp Hb. unfold bind.
  destruct (outcome (pro s)) as [cls | e]; cbn [trace].
  - rewrite scoped_run. cbn [trace].
    rewrite !List.filter_app, (filter_none _ _ (Hp s)),
      (filter_none _ _ (Hb cls _)).
    apply class_release_deletes.
  - apply filter_none, Hp.
Qed.

Lemma CallMethod_block R o n g args m :
  jni.CallMethod vm R o n g args = Some m ->
  exists body,
    m = (cls <- env.GetObjectClass vm o;; jni.scoped vm cls (body cls)) /\
    forall cls, guardless (body cls).
Proof.
  destruct args as [| a args]; cbn [jni.CallMethod].
  - intros [= <-]. eexists (fun cls => _). split; [reflexivity |].
    intros cls. apply guardless_bind;
      [now apply guardless_lookup | intros; apply guardless_call_direct].
  - unfold jni.CallMethod_packed, jni.JNITypeTraits_CallMethod.
    destruct (jni.JNITypeTraits_method vm Instance R) as [slot |] eqn:E;
      cbn [mbind option_bind]; [| discriminate].
    intros [= <-]. eexists (fun cls => _). split; [reflexivity |].
    intros cls. apply guardless_bind; [now apply guardless_lookup | intros].
    apply guardless_bind; [apply guardless_ArgsToJValues | intros].
    now apply (guardless_method Instance R).
Qed.

Lemma CallStaticMethod_block R c n g args m :
  jni.CallStaticMethod vm R c n g args = Some m ->
  exists body,
    m = (cls <- jni.FindClass vm c;; jni.scoped vm cls (body cls)) /\
    forall cls, guardless (body cls).
Proof.
  destruct args as [| a args]; cbn [jni.CallStaticMethod].
  - intros [= <-]. eexists (fun cls => _). split; [reflexivity |].
    intros cls. apply guardless_bind;
      [now apply guardless_lookup | intros; apply guardless_call_direct].
  - unfold jni.CallStaticMethod_packed, jni.JNITypeTraits_CallStaticMethod.
    destruct (jni.JNITypeTraits_method vm Static R) as [slot |] eqn:E;
      cbn [mbind option_bind]; [| discriminate].
    intros [= <-]. eexists (fun cls => _). split; [reflexivity |].
    intros cls. apply guardless_bind; [now apply guardless_lookup | intros].
    apply guardless_bind; [apply guardless_ArgsToJValues | intros].
    now apply (guardless_method Static R).
Qed.

Lemma GetField_block T o n g m :
  jni.GetField vm T o n g = Some m ->
  exists body,
    m = (cls <- env.GetObjectClass vm o;; jni.scoped vm cls (body cls)) /\
    forall cls, guardless (body cls).
Proof.
  unfold jni.GetField, jni.JNITypeTraits_GetField.
  destruct (jni.JNITypeTraits_signature T) as [sigT |]; [| discriminate].
  destruct (jni.JNITypeTraits_field vm Instance T) as [slotT |] eqn:ET;
    [| discriminate].
  destruct (jni.JNITypeTraits_field vm Instance Tjobject) as [slotO |] eqn:EO;
    [| discriminate].
  destruct (jni.static_cast_jobject T) as [cast |]; [| discriminate].
  cbn. intros [= <-]. eexists (fun cls => _). split; [reflexivity |].
  intros cls. apply guardless_bind; [now apply guardless_lookup | intros fid].
  destruct g.
  - apply guardless_bind; [| intros; apply guardless_ret].
    now apply (guardless_field Instance Tjobject).
  - now apply (guardless_field Instance T).
Qed.

Lemma GetStaticField_block T c n g m :
  jni.GetStaticField vm T c n g = Some m ->
  exists body,
    m = (cls <- jni.FindClass vm c;; jni.scoped vm cls (body cls)) /\
    forall cls, guardless (body cls).
Proof.
  unfold jni.GetStaticField, jni.JNITypeTraits_GetStaticField.
  destruct (jni.JNITypeTraits_signature T) as [sigT |]; [| discriminate].
  destruct (jni.JNITypeTraits_field vm Static T) as [slotT |] eqn:ET;
    [| discriminate].
  destruct (jni.JNITypeTraits_field vm Static Tjobject) as [slotO |] eqn:EO;
    [| discriminate].
  destruct (jni.static_cast_jobject T) as [cast |]; [| discriminate].
  cbn. intros [= <-]. eexists (fun cls => _). split; [reflexivity |].
  intros cls. apply guardless_bind; [now apply guardless_lookup | intros fid].
  destruct g.
  - apply guardless_bind; [| intros; apply guardless_ret].
    now apply (guardless_field Static Tjobject).
  - now apply (guardless_field Static T).
Qed.

Lemma guardless_FindClass n : guardless (jni.FindClass vm n).
Proof. now apply guardless_lookup. Qed.

(** In every run of a high-level operation the only [DeleteLocalRef] is the
    guard's, on the class reference the operation obtained: once if that
    reference is non-null, whether the operation returns or throws, and not
    at all when the class lookup itself threw.  Nothing else is released,
    the Java strings the packer creates included. *)
Theorem only_the_class_is_released :
  (forall R obj name sig args m (s : St W),
     jni.CallMethod vm R obj name sig args = Some m ->
     List.filter is_delete (trace (m s))
     = class_release (ret_val (vm_GetObjectClass vm (world s) obj))) /\
  (forall T obj name sig m (s : St W),
     jni.GetField vm T obj name sig = Some m ->
     List.filter is_delete (trace (m s))
     = class_release (ret_val (vm_GetObjectClass vm (world s) obj))) /\
  (forall R className name sig args m (s : St W),
     jni.CallStaticMethod vm R className name sig args = Some m ->
     List.filter is_delete (trace (m s))
     = match outcome (jni.FindClass vm className s) with
       | Return cls => class_release cls
       | Throw _ => []
       end) /\
  (forall className sig args (s : St W),
     List.filter is_delete (trace (jni.NewObject vm className sig args s))
     = match outcome (jni.FindClass vm className s) with
       | Return cls => class_release cls
       | Throw _ => []
       end) /\
  (forall T className name sig m (s : St W),
     jni.GetStaticField vm T className name sig = Some m ->
     List.filter is_delete (trace (m s))
     = match outcome (jni.FindClass vm className s) with
       | Return cls => class_release cls
       | Throw _ => []
       end).
Proof.
  repeat split.
  - intros R obj name sig args m s Hm.
    apply CallMethod_block in Hm as (body & -> & Hb).
    rewrite block_deletes;
      [reflexivity | now apply guardless_foreign | exact Hb].
  - intros T obj name sig m s Hm.
    apply GetField_block in Hm as (body & -> & Hb).
    rewrite block_deletes;
      [reflexivity | now apply guardless_foreign | exact Hb].
  - intros R cn name sig args m s Hm.
    apply CallStaticMethod_block in Hm as (body & -> & Hb).
    now rewrite block_deletes; [| apply guardless_FindClass | exact Hb].
  - intros cn sig args s. unfold jni.NewObject.
    rewrite block_deletes; [reflexivity | apply guardless_FindClass |].
    intros cls. apply guardless_bind; [now apply guardless_lookup | intros].
    apply guardless_bind; [apply guardless_ArgsToJValues | intros].
    unfold env.NewObjectA.
    apply guardless_checked; [reflexivity | intros; apply guardless_ret].
  - intros T cn name sig m s Hm.
    apply GetStaticField_block in Hm as (body & -> & Hb).
    now rewrite block_deletes; [| apply guardless_FindClass | exact Hb].
Qed.

(** *** What a field read returns *)

(** [GetField] and [GetStaticField] for [jobject] and [jstring], the lookups
    done: the field identifier is looked up under the passed signature, or
    under the type's own when none is passed, and the field is read once, by
    [Get(Static)ObjectField] in either case; the operation throws what the
    read raised and otherwise returns the handle read, as a [T]. *)
Theorem GetField_reads T sigT :
  castable_with_slot T = true ->
  jni.JNITypeTraits_signature T = Some sigT ->
  (forall obj name sig (s : St W),
     let fieldSig := match sig with Some g => g | None => sigT end in
     let r0 := vm_GetObjectClass vm (world s) obj in
     let r1 := vm_GetID vm (now r0) Instance Field (ret_val r0) name
                 fieldSig in
     let r2 := vm_GetField vm (now r1) Instance FObject obj (ret_val r1) in
     pending s = nullptr -> thrown r0 = nullptr -> thrown r1 = nullptr ->
     exists m,
       jni.GetField vm T obj name sig = Some m /\
       outcome (m s) = bridged (thrown r2) (Val T (ret_val r2)) /\
       trace (m s) =
         ([EvGetObjectClass obj;
           EvGetID Instance Field (ret_val r0) name fieldSig;
           EvExceptionCheck;
           EvGetField Instance FObject obj (ret_val r1)]
          ++ (if nonnull (thrown r2) then bridge_throws
              else [EvExceptionCheck])
          ++ class_release (ret_val r0))%list) /\
  (forall className name sig (s : St W),
     let fieldSig := match sig with Some g => g | None => sigT end in
     let r0 := vm_FindClass vm (world s) className in
     let r1 := vm_GetID vm (now r0) Static Field (ret_val r0) name
                 fieldSig in
     let r2 := vm_GetField vm (now r1) Static FObject (ret_val r0)
                 (ret_val r1) in
     pending s = nullptr -> thrown r0 = nullptr -> thrown r1 = nullptr ->
     exists m,
       jni.GetStaticField vm T className name sig = Some m /\
       outcome (m s) = bridged (thrown r2) (Val T (ret_val r2)) /\
       trace (m s) =
         ([EvFindClass className; EvExceptionCheck;
           EvGetID Static Field (ret_val r0) name fieldSig;
           EvExceptionCheck;
           EvGetField Static FObject (ret_val r0) (ret_val r1)]
          ++ (if nonnull (thrown r2) then bridge_throws
              else [EvExceptionCheck])
          ++ class_release (ret_val r0))%list).
Proof.
  intros HT Hsig. split.
  - intros obj name sig s fieldSig r0 r1 r2 Hp H0 H1.
    destruct T; try discriminate; injection Hsig as <-;
      (eexists; split; [reflexivity |];
       unfold env.GetObjectClass; rewrite foreign_bind_run; cbn zeta;
       rewrite foreign_quiet_state; [| exact Hp | exact H0];
       rewrite scoped_run; unfold jni.GetFieldID, env.GetID;
       destruct sig as [g |];
       (rewrite lookup_quiet_run; [| reflexivity | exact H1]); cbn zeta;
       rewrite ?then_ret_run; unfold env.GetField;
       rewrite checked_ret_run; cbn zeta; cbn [pending world outcome trace];
       rewrite raised_or_null; unfold bridged;
       destruct (nonnull _); split; reflexivity).
  - intros cn name sig s fieldSig r0 r1 r2 Hp H0 H1.
    destruct T; try discriminate; injection Hsig as <-;
      (eexists; split; [reflexivity |];
       unfold jni.FindClass, env.FindClass;
       rewrite lookup_quiet_run; [| exact Hp | exact H0]; cbn zeta;
       rewrite scoped_run; unfold jni.GetStaticFieldID, env.GetID;
       destruct sig as [g |];
       (rewrite lookup_quiet_run; [| reflexivity | exact H1]); cbn zeta;
       rewrite ?then_ret_run; unfold env.GetField;
       rewrite checked_ret_run; cbn zeta; cbn [pending world outcome trace];
       rewrite raised_or_null; unfold bridged;
       destruct (nonnull _); split; reflexivity).
Qed.

(** ** The bridge in the operations that run it *)

Lemma checked_result_run {A B} c (ask : W -> Reply W A) (b : A -> B) s :
  (x <- env.foreign c ask;; jni.JNI_CHECK_EXCEPTION;; ret (b x)) s
  = checked_result s c (ask (world s)) b.
Proof. apply checked_ret_run. Qed.

Lemma newest_null h : newest h nullptr = h.
Proof. apply raised_or_null. Qed.

Lemma lookup_outcome {B} c (ask : W -> Reply W Z) (k : Z -> M W B) s :
  outcome ((id <- (x <- env.foreign c ask;; jni.JNI_CHECK_EXCEPTION;; ret x);;
            k id) s)
  = let r := ask (world s) in
    let h := newest (thrown r) (pending s) in
    if nonnull h then Throw (ForeignFault h)
    else outcome (k (ret_val r) {| world := now r; pending := nullptr |}).
Proof.
  cbn zeta. unfold bind at 1.
  rewrite (checked_result_run c ask (fun x => x)).
  unfold checked_result, bridged. cbn [outcome st].
  now destruct (nonnull (newest _ _)).
Qed.

Lemma call_direct_run d R recv mid s :
  jni.call_direct vm d R recv mid s
  = checked_result s (EvCallMethod d (direct_family R) recv mid)
      (vm_CallMethod vm (world s) d (direct_family R) recv mid)
      (jni.typed R).
Proof.
  rewrite <- (checked_result_run _
                (fun w => vm_CallMethod vm w d (direct_family R) recv mid)).
  now destruct R.
Qed.

Lemma method_slot_run d T sg F slot recv mid args s :
  jni.JNITypeTraits T = Some (sg, F) ->
  jni.JNITypeTraits_method vm d T = Some slot ->
  slot recv mid args s
  = checked_result s (EvCallMethodA d F recv mid args)
      (vm_CallMethodA vm (world s) d F recv mid args) (jni.typed T).
Proof.
  intros HT. unfold jni.JNITypeTraits_method. rewrite HT. intros [= <-].
  apply (checked_result_run _
           (fun w => vm_CallMethodA vm w d F recv mid args)).
Qed.

Lemma field_slot_run d T sg F slot recv fid s :
  jni.JNITypeTraits T = Some (sg, F) ->
  jni.JNITypeTraits_field vm d T = Some slot ->
  slot recv fid s
  = checked_result s (EvGetField d F recv fid)
      (vm_GetField vm (world s) d F recv fid) (jni.typed T).
Proof.
  unfold jni.JNITypeTraits_field.
  destruct T; cbn; intros [= <- <-]; try discriminate; intros [= <-];
    apply (checked_result_run _ (fun w => vm_GetField vm w d _ recv fid)).
Qed.

Lemma bridged_cast {A B} h (v : A) (b : A -> B) :
  match bridged h v with
  | Return a => Return (b a)
  | Throw e => Throw e
  end = bridged h (b v).
Proof. unfold bridged. now destruct (nonnull h). Qed.

Ltac fold_newest :=
  repeat match goal with
         | |- context [if nonnull ?h then ?h else ?b] =>
             change (if nonnull h then h else b) with (newest h b)
         end.

Ltac split_fault :=
  unfold jclass, jstring, jthrowable, jmethodID, jfieldID, jobject;
  match goal with
  | |- _ = (if nonnull ?h then _ else _) =>
      destruct (nonnull h); [reflexivity |]
  end.

(** C1, as the header has it.  With a fault pending [JNI_CHECK_EXCEPTION]
    retrieves the fault object, clears the pending flag and throws the
    [JNIException] that carries the retrieved handle (the spec's
    ForeignFault); with nothing pending it only asks [ExceptionCheck] and
    changes nothing.  In the operations that run it behind their call - the
    five lookups, the dispatch-table slots, the zero-argument chain,
    [NewObject] and, through these, [CallMethod], [CallStaticMethod],
    [GetField] and [GetStaticField] - a call that raises a fault makes the
    operation throw that exception with the fault's handle, a call that
    raises nothing with nothing pending lets it return the runtime's answer,
    and nothing is left pending either way; whatever any operation throws is
    such an exception, and a [FindClass] issued after a failed operation
    returns the class if its own call raises nothing. *)
Theorem C1_exception_bridge :
  (* the bridge *)
  (forall s : St W, pending s <> nullptr ->
     jni.JNI_CHECK_EXCEPTION s =
       {| st := {| world := world s; pending := nullptr |};
          trace := [EvExceptionCheck; EvExceptionOccurred;
                    EvExceptionDescribe; EvExceptionClear];
          outcome := Throw (ForeignFault (pending s)) |}) /\
  (forall s : St W, pending s = nullptr ->
     jni.JNI_CHECK_EXCEPTION s =
       {| st := s; trace := [EvExceptionCheck]; outcome := Return tt |}) /\
  (* the lookups *)
  (forall n (s : St W),
     jni.FindClass vm n s
     = checked_result s (EvFindClass n) (vm_FindClass vm (world s) n)
         (fun cls => cls)) /\
  (forall cls n g (s : St W),
     jni.GetMethodID vm cls n g s
     = checked_result s (EvGetID Instance Method cls n g)
         (vm_GetID vm (world s) Instance Method cls n g) (fun mid => mid)) /\
  (forall cls n g (s : St W),
     jni.GetStaticMethodID vm cls n g s
     = checked_result s (EvGetID Static Method cls n g)
         (vm_GetID vm (world s) Static Method cls n g) (fun mid => mid)) /\
  (forall cls n g (s : St W),
     jni.GetFieldID vm cls n g s
     = checked_result s (EvGetID Instance Field cls n g)
         (vm_GetID vm (world s) Instance Field cls n g) (fun fid => fid)) /\
  (forall cls n g (s : St W),
     jni.GetStaticFieldID vm cls n g s
     = checked_result s (EvGetID Static Field cls n g)
         (vm_GetID vm (world s) Static Field cls n g) (fun fid => fid)) /\
  (* the table's slots and the zero-argument chain *)
  (forall d T sg F slot recv fid (s : St W),
     jni.JNITypeTraits T = Some (sg, F) ->
     jni.JNITypeTraits_field vm d T = Some slot ->
     slot recv fid s
     = checked_result s (EvGetField d F recv fid)
         (vm_GetField vm (world s) d F recv fid) (jni.typed T)) /\
  (forall d T sg F slot recv mid args (s : St W),
     jni.JNITypeTraits T = Some (sg, F) ->
     jni.JNITypeTraits_method vm d T = Some slot ->
     slot recv mid args s
     = checked_result s (EvCallMethodA d F recv mid args)
         (vm_CallMethodA vm (world s) d F recv mid args) (jni.typed T)) /\
  (forall d R recv mid (s : St W),
     jni.call_direct vm d R recv mid s
     = checked_result s (EvCallMethod d (direct_family R) recv mid)
         (vm_CallMethod vm (world s) d (direct_family R) recv mid)
         (jni.typed R)) /\
  (* CallMethod *)
  (forall R obj name sig (s : St W),
     let r0 := vm_GetObjectClass vm (world s) obj in
     let r1 := vm_GetID vm (now r0) Instance Method (ret_val r0) name sig in
     let h1 := newest (thrown r1) (newest (thrown r0) (pending s)) in
     let r2 := vm_CallMethod vm (now r1) Instance (direct_family R) obj
                 (ret_val r1) in
     exists m,
       jni.CallMethod vm R obj name sig [] = Some m /\
       outcome (m s) =
         if nonnull h1 then Throw (ForeignFault h1)
         else bridged (thrown r2) (jni.typed R (ret_val r2))) /\
  (forall R sg F obj name sig a rest (s : St W) cells,
     let r0 := vm_GetObjectClass vm (world s) obj in
     let r1 := vm_GetID vm (now r0) Instance Method (ret_val r0) name sig in
     let h1 := newest (thrown r1) (newest (thrown r0) (pending s)) in
     let p := jni.ArgsToJValues vm (a :: rest)
                {| world := now r1; pending := nullptr |} in
     let r2 := vm_CallMethodA vm (world (st p)) Instance F obj (ret_val r1)
                 cells in
     jni.JNITypeTraits R = Some (sg, F) ->
     outcome p = Return cells ->
     exists m,
       jni.CallMethod vm R obj name sig (a :: rest) = Some m /\
       outcome (m s) =
         if nonnull h1 then Throw (ForeignFault h1)
         else bridged (newest (thrown r2) (pending (st p)))
                (jni.typed R (ret_val r2))) /\
  (* CallStaticMethod *)
  (forall R className name sig (s : St W),
     let r0 := vm_FindClass vm (world s) className in
     let h0 := newest (thrown r0) (pending s) in
     let r1 := vm_GetID vm (now r0) Static Method (ret_val r0) name sig in
     let r2 := vm_CallMethod vm (now r1) Static (direct_family R) (ret_val r0)
                 (ret_val r1) in
     exists m,
       jni.CallStaticMethod vm R className name sig [] = Some m /\
       outcome (m s) =
         if nonnull h0 then Throw (ForeignFault h0)
         else if nonnull (thrown r1) then Throw (ForeignFault (thrown r1))
         else bridged (thrown r2) (jni.typed R (ret_val r2))) /\
  (forall R sg F className name sig a rest (s : St W) cells,
     let r0 := vm_FindClass vm (world s) className in
     let h0 := newest (thrown r0) (pending s) in
     let r1 := vm_GetID vm (now r0) Static Method (ret_val r0) name sig in
     let p := jni.ArgsToJValues vm (a :: rest)
                {| world := now r1; pending := nullptr |} in
     let r2 := vm_CallMethodA vm (world (st p)) Static F (ret_val r0)
                 (ret_val r1) cells in
     jni.JNITypeTraits R = Some (sg, F) ->
     outcome p = Return cells ->
     exists m,
       jni.CallStaticMethod vm R className name sig (a :: rest) = Some m /\
       outcome (m s) =
         if nonnull h0 then Throw (ForeignFault h0)
         else if nonnull (thrown r1) then Throw (ForeignFault (thrown r1))
         else bridged (newest (thrown r2) (pending (st p)))
                (jni.typed R (ret_val r2))) /\
  (* NewObject *)
  (forall className sig args (s : St W) cells,
     let r0 := vm_FindClass vm (world s) className in
     let h0 := newest (thrown r0) (pending s) in
     let r1 := vm_GetID vm (now r0) Instance Method (ret_val r0) "<init>"
                 sig in
     let p := jni.ArgsToJValues vm args
                {| world := now r1; pending := nullptr |} in
     let r2 := vm_NewObjectA vm (world (st p)) (ret_val r0) (ret_val r1)
                 cells in
     outcome p = Return cells ->
     outcome (jni.NewObject vm className sig args s) =
       if nonnull h0 then Throw (ForeignFault h0)
       else if nonnull (thrown r1) then Throw (ForeignFault (thrown r1))
       else bridged (newest (thrown r2) (pending (st p))) (ret_val r2)) /\
  (* GetField, GetStaticField *)
  (forall T sigT obj name sig (s : St W),
     let fieldSig := match sig with Some g => g | None => sigT end in
     let r0 := vm_GetObjectClass vm (world s) obj in
     let r1 := vm_GetID vm (now r0) Instance Field (ret_val r0) name
                 fieldSig in
     let h1 := newest (thrown r1) (newest (thrown r0) (pending s)) in
     let r2 := vm_GetField vm (now r1) Instance FObject obj (ret_val r1) in
     castable_with_slot T = true ->
     jni.JNITypeTraits_signature T = Some sigT ->
     exists m,
       jni.GetField vm T obj name sig = Some m /\
       outcome (m s) =
         if nonnull h1 then Throw (ForeignFault h1)
         else bridged (thrown r2) (Val T (ret_val r2))) /\
  (forall T sigT className name sig (s : St W),
     let fieldSig := match sig with Some g => g | None => sigT end in
     let r0 := vm_FindClass vm (world s) className in
     let h0 := newest (thrown r0) (pending s) in
     let r1 := vm_GetID vm (now r0) Static Field (ret_val r0) name
                 fieldSig in
     let r2 := vm_GetField vm (now r1) Static FObject (ret_val r0)
                 (ret_val r1) in
     castable_with_slot T = true ->
     jni.JNITypeTraits_signature T = Some sigT ->
     exists m,
       jni.GetStaticField vm T className name sig = Some m /\
       outcome (m s) =
         if nonnull h0 then Throw (ForeignFault h0)
         else if nonnull (thrown r1) then Throw (ForeignFault (thrown r1))
         else bridged (thrown r2) (Val T (ret_val r2))) /\
  (* every operation, and the call after a failed one *)
  (forall op m s e,
     perform vm op = Some m -> outcome (m s) = Throw e ->
     is_ForeignFault e /\ pending (st (m s)) = nullptr) /\
  (forall op m s e n,
     perform vm op = Some m -> outcome (m s) = Throw e ->
     thrown (vm_FindClass vm (world (st (m s))) n) = nullptr ->
     outcome (jni.FindClass vm n (st (m s)))
     = Return (ret_val (vm_FindClass vm (world (st (m s))) n))).
Proof.
  split; [intros s H; now apply check_pending, nonnull_true |].
  split; [intros s H; now apply check_clear, nonnull_false |].
  split; [intros; apply (checked_result_run _ (fun w => vm_FindClass vm w n))
         |].
  do 4 (split; [intros; apply (checked_result_run _
                                 (fun w => vm_GetID vm w _ _ cls n g)) |]).
  split; [intros; now apply (field_slot_run d T sg F) |].
  split; [intros; now apply (method_slot_run d T sg F) |].
  split; [intros; apply call_direct_run |].
  split.
  { intros R obj name sig s r0 r1 h1 r2. subst r0 r1 h1 r2.
    eexists. split; [reflexivity |].
    unfold env.GetObjectClass. rewrite foreign_then, scoped_outcome.
    unfold jni.GetMethodID, env.GetID. rewrite lookup_outcome. cbn zeta.
    cbn [env.foreign st world pending]. fold_newest. split_fault.
    rewrite call_direct_run. unfold checked_result. cbn [outcome pending].
    now rewrite newest_null. }
  split.
  { intros R sg F obj name sig a rest s cells r0 r1 h1 p r2 HR Hcells.
    subst r0 r1 h1 p r2. cbn [jni.CallMethod].
    unfold jni.CallMethod_packed, jni.JNITypeTraits_CallMethod,
      jni.JNITypeTraits_method. rewrite HR. cbn [mbind option_bind].
    eexists. split; [reflexivity |].
    unfold env.GetObjectClass. rewrite foreign_then, scoped_outcome.
    unfold jni.GetMethodID, env.GetID. rewrite lookup_outcome. cbn zeta.
    cbn [env.foreign st world pending]. fold_newest. split_fault.
    rewrite (bind_return (jni.ArgsToJValues vm (a :: rest)) _ _ cells)
      by exact Hcells.
    cbn [outcome]. unfold env.CallMethodA.
    now rewrite checked_result_run. }
  split.
  { intros R cn name sig s r0 h0 r1 r2. subst r0 h0 r1 r2.
    eexists. split; [reflexivity |].
    unfold jni.FindClass, env.FindClass. rewrite lookup_outcome. cbn zeta.
    split_fault. rewrite scoped_outcome.
    unfold jni.GetStaticMethodID, env.GetID. rewrite lookup_outcome. cbn zeta.
    cbn [world pending]. rewrite newest_null. split_fault.
    rewrite call_direct_run. unfold checked_result. cbn [outcome pending].
    now rewrite newest_null. }
  split.
  { intros R sg F cn name sig a rest s cells r0 h0 r1 p r2 HR Hcells.
    subst r0 h0 r1 p r2. cbn [jni.CallStaticMethod].
    unfold jni.CallStaticMethod_packed, jni.JNITypeTraits_CallStaticMethod,
      jni.JNITypeTraits_method. rewrite HR. cbn [mbind option_bind].
    eexists. split; [reflexivity |].
    unfold jni.FindClass, env.FindClass. rewrite lookup_outcome. cbn zeta.
    split_fault. rewrite scoped_outcome.
    unfold jni.GetStaticMethodID, env.GetID. rewrite lookup_outcome. cbn zeta.
    cbn [world pending]. rewrite newest_null. split_fault.
    rewrite (bind_return (jni.ArgsToJValues vm (a :: rest)) _ _ cells)
      by exact Hcells.
    cbn [outcome]. unfold env.CallMethodA.
    now rewrite checked_result_run. }
  split.
  { intros cn sig args s cells r0 h0 r1 p r2 Hcells. subst r0 h0 r1 p r2.
    unfold jni.NewObject, jni.FindClass, env.FindClass.
    rewrite lookup_outcome. cbn zeta. split_fault. rewrite scoped_outcome.
    unfold jni.GetMethodID, env.GetID. rewrite lookup_outcome. cbn zeta.
    cbn [world pending]. rewrite newest_null. split_fault.
    rewrite (bind_return (jni.ArgsToJValues vm args) _ _ cells)
      by exact Hcells.
    cbn [outcome]. unfold env.NewObjectA.
    now rewrite (checked_result_run _ _ (fun x => x)). }
  split.
  { intros T sigT obj name sig s fieldSig r0 r1 h1 r2 HT Hsig.
    subst fieldSig r0 r1 h1 r2.
    destruct T; try discriminate; injection Hsig as <-;
      (eexists; split; [reflexivity |];
       unfold env.GetObjectClass; rewrite foreign_then, scoped_outcome;
       unfold jni.GetFieldID, env.GetID;
       destruct sig as [g |];
       rewrite lookup_outcome; cbn zeta;
       cbn [env.foreign st world pending fst]; fold_newest; split_fault;
       rewrite ?then_ret_run; unfold env.GetField;
       rewrite checked_result_run; unfold checked_result;
       cbn [outcome pending world]; rewrite newest_null;
       rewrite ?bridged_cast; reflexivity). }
  split.
  { intros T sigT cn name sig s fieldSig r0 h0 r1 r2 HT Hsig.
    subst fieldSig r0 h0 r1 r2.
    destruct T; try discriminate; injection Hsig as <-;
      (eexists; split; [reflexivity |];
       unfold jni.FindClass, env.FindClass; rewrite lookup_outcome;
       cbn zeta; split_fault;
       rewrite scoped_outcome; unfold jni.GetStaticFieldID, env.GetID;
       destruct sig as [g |];
       rewrite lookup_outcome; cbn zeta; cbn [world pending fst];
       rewrite newest_null; split_fault;
       rewrite ?then_ret_run; unfold env.GetField;
       rewrite checked_result_run; unfold checked_result;
       cbn [outcome pending world]; rewrite newest_null;
       rewrite ?bridged_cast; reflexivity). }
  split.
  { intros op m s e Hop He.
    eapply wrapper_faults; eauto using wrapper_perform. }
  intros op m s e n Hop He Hq. unfold jni.FindClass, env.FindClass.
  rewrite (checked_result_run _ (fun w => vm_FindClass vm w n) (fun x => x)).
  unfold checked_result, bridged, newest. cbn [outcome]. rewrite Hq.
  replace (pending (st (m s))) with nullptr; [reflexivity |].
  symmetry. eapply wrapper_faults; eauto using wrapper_perform.
Qed.

End Proofs.

(** * The header on the small runtime *)

(** A lookup of a method [Widget] does not have. *)
Lemma C2_counterexample :
  demo.member Method "nope" "()I" = None /\
  exists m e,
    jni.CallMethod demo.vm Tjint demo.widget "nope" "()I" [] = Some m /\
    outcome (m (demo.start 2)) = Throw e /\
    e = ForeignFault demo.NoSuchMethodError /\
    is_ForeignFault e.
Proof.
  split; [reflexivity |].
  eexists. exists (ForeignFault demo.NoSuchMethodError).
  split; [reflexivity |]. split; [reflexivity |]. split; [reflexivity |].
  exists demo.NoSuchMethodError. split; reflexivity.
Qed.

Lemma C2_witness :
  exists m,
    jni.CallMethod demo.vm Tjint demo.widget "nope" "()I" [] = Some m /\
    thrown (vm_GetID demo.vm (world (demo.start 2)) Instance Method
                     demo.Widget "nope" "()I") <> nullptr /\
    outcome (m (demo.start 2)) = Throw (ForeignFault demo.NoSuchMethodError).
Proof.
  eexists. split; [reflexivity |]. split; [discriminate |].
  apply (proj1 (proj2 (C2_single_failure_kind demo.vm))
           Tjint demo.widget "nope" "()I" [] _ (demo.start 2) eq_refl).
  discriminate.
Defined.

(** [NewStringUTF] raises when the runtime has no room left; the fault stays
    pending when [StringToJString] returns. *)
Lemma C3_counterexample :
  exists m,
    perform demo.vm (op_StringToJString "x") = Some m /\
    trace (m (demo.start 0)) = [EvNewStringUTF "x"] /\
    followed_by_check bridge_call (trace (m (demo.start 0))) = false /\
    outcome (m (demo.start 0)) = Return tt /\
    pending (st (m (demo.start 0))) = demo.OutOfMemoryError.
Proof. eexists. repeat split. Qed.

Lemma C3_witness :
  exists m,
    perform demo.vm
      (op_NewObject "widget/Widget" "()V" [a_jint 4; a_cstr (Some "hi")])
    = Some m /\
    checked_at_once (trace (m (demo.start 2))) = true.
Proof.
  eexists. split; [reflexivity |].
  apply (proj1 (C3_guarded_calls_checked demo.vm)
           (op_NewObject "widget/Widget" "()V" [a_jint 4; a_cstr (Some "hi")])
           _ (demo.start 2) eq_refl).
Defined.

Lemma C5_witness :
  exists cells,
    outcome (jni.ArgsToJValues demo.vm
               [a_jint 4; a_cstr (Some "hi"); a_nullptr] (demo.start 2))
    = Return cells /\
    length cells = 3%nat /\
    cells !! 1%nat = Some (jv_l 1000%Z).
Proof.
  destruct (C5_packer_cells demo.vm
              [a_jint 4; a_cstr (Some "hi"); a_nullptr] (demo.start 2))
    as (cells & Hout & Hlen & Hcells).
  exists cells. split; [exact Hout |]. split; [exact Hlen |].
  destruct (Hcells 1%nat (a_cstr (Some "hi")) eq_refl) as (c & Hc & Hi).
  injection Hc as <-. exact Hi.
Defined.

Lemma C6_witness :
  let s := st (jni.StringToJString demo.vm "hi" (demo.start 1)) in
  1000%Z <> nullptr /\
  ret_val (vm_GetStringUTFChars demo.vm (world s) 1000%Z) = Some "hi" /\
  outcome (jni.JStringToString demo.vm 1000%Z s) = Return "hi" /\
  trace (jni.JStringToString demo.vm 1000%Z s)
  = [EvGetStringUTFChars 1000%Z; EvReleaseStringUTFChars 1000%Z "hi"].
Proof.
  cbn zeta. split; [discriminate |]. split; [reflexivity |].
  apply (proj2 (proj2 (proj2 (C6_JStringToString_total demo.vm 1000%Z
           (st (jni.StringToJString demo.vm "hi" (demo.start 1))))))
           "hi"); [discriminate | reflexivity].
Defined.

Lemma C7_witness :
  no_nul "hi" = true /\
  outcome ((h <- jni.StringToJString demo.vm "hi";;
            jni.JStringToString demo.vm h) (demo.start 1))
  = Return "hi".
Proof.
  split; [reflexivity |].
  apply (C7_string_round_trip demo.vm "hi" (demo.start 1) eq_refl);
    [discriminate | reflexivity].
Defined.

Lemma C8_witness :
  jni.JNITypeTraits Tjint = Some ("I", FInt) /\
  exists m p,
    jni.CallMethod demo.vm Tjint demo.widget "size" "()I" [] = Some m /\
    jni.CallMethod_packed demo.vm Tjint demo.widget "size" "()I" [] = Some p /\
    no_array_call m /\
    same_result (m (demo.start 2)) (p (demo.start 2)) /\
    outcome (m (demo.start 2)) = Return (Val Tjint 7).
Proof.
  split; [reflexivity |].
  destruct (proj1 (proj2 (C8_zero_argument_direct demo.vm Tjint "I" FInt
                            eq_refl (fun _ _ _ _ => eq_refl)))
              demo.widget "size" "()I")
    as (m & p & Hm & Heq & Hp & Hno & Hsame).
  exists m, p. repeat split; try assumption; try apply Hsame.
  rewrite Heq. reflexivity.
Defined.

Lemma C10_witness :
  exists cells,
    outcome (jni.ArgsToJValues demo.vm [a_jint 1; a_cstr None]
               (demo.start 2))
    = Return cells /\
    cells !! 1%nat = Some (jv_l nullptr) /\
    trace (jni.ArgsToJValues demo.vm [a_jint 1; a_cstr None] (demo.start 2))
    = [].
Proof.
  destruct (proj2 (proj2 (C10_null_c_string demo.vm))
              [a_jint 1; a_cstr None] (demo.start 2) 1%nat eq_refl)
    as (cells & Hout & Hcell).
  exists cells. split; [exact Hout |]. split; [exact Hcell |].
  apply (proj1 (proj2 (C10_null_c_string demo.vm))).
Defined.

(** A text with an embedded NUL comes back cut at the NUL. *)
Example round_trip_cuts_at_nul :
  outcome ((h <- jni.StringToJString demo.vm
                   (String "a" (String zero (String "b" EmptyString)));;
            jni.JStringToString demo.vm h) (demo.start 1))
  = Return "a".
Proof. reflexivity. Qed.

(** After a failed call nothing is pending, and the next call succeeds. *)
Example call_after_fault :
  exists m1 m2,
    jni.CallMethod demo.vm Tvoid demo.widget "fail" "()V" [] = Some m1 /\
    jni.CallMethod demo.vm Tjint demo.widget "size" "()I" [] = Some m2 /\
    outcome (m1 (demo.start 2))
    = Throw (ForeignFault demo.IllegalStateException) /\
    outcome (m2 (st (m1 (demo.start 2)))) = Return (Val Tjint 7).
Proof. do 2 eexists. repeat split. Qed.

(** ** The further properties on the small runtime *)

Lemma stale_fault_surfaces_witness :
  thrown (vm_NewStringUTF demo.vm (world (demo.start 0)) (until_nul "x"))
  <> nullptr /\
  outcome ((_ <- jni.StringToJString demo.vm "x";;
            jni.FindClass demo.vm "widget/Widget") (demo.start 0))
  = Throw (ForeignFault demo.OutOfMemoryError).
Proof.
  split; [discriminate |].
  apply (proj2 (stale_fault_surfaces demo.vm) "x" "widget/Widget"
           (demo.start 0)); [discriminate | reflexivity].
Defined.

Lemma round_trip_up_to_nul_witness :
  let text := String "a" (String zero (String "b" EmptyString)) in
  no_nul text = false /\
  outcome ((h <- jni.StringToJString demo.vm text;;
            jni.JStringToString demo.vm h) (demo.start 1))
  = Return "a".
Proof.
  cbn zeta. split; [reflexivity |].
  apply (round_trip_up_to_nul demo.vm
           (String "a" (String zero (String "b" EmptyString)))
           (demo.start 1)); [discriminate | reflexivity].
Defined.

Lemma packer_writes_every_cell_witness :
  [a_jint 4; a_nullptr] <> [] /\
  Forall (fun c => c <> jv_indeterminate) [jv_i 4; jv_l nullptr].
Proof.
  split; [discriminate |].
  apply (proj2 (packer_writes_every_cell demo.vm) [a_jint 4; a_nullptr]
           (demo.start 2) [jv_i 4; jv_l nullptr]);
    [discriminate | reflexivity].
Defined.

Lemma guard_handles_witness :
  fst (guard_uses (jni.ScopedLocalRef_new 7%Z) [use_get; use_get])
  = [7%Z; 7%Z].
Proof.
  apply (proj1 guard_handles (jni.ScopedLocalRef_new 7%Z) [use_get; use_get]
           eq_refl).
Defined.

Lemma high_level_leaves_nothing_pending_witness :
  exists m,
    jni.CallMethod demo.vm Tjint demo.widget "size" "()I" [] = Some m /\
    pending (st (m {| world := world (demo.start 2);
                      pending := demo.OutOfMemoryError |})) = nullptr.
Proof.
  eexists. split; [reflexivity |].
  apply (proj1 (high_level_leaves_nothing_pending demo.vm)
           Tjint demo.widget "size" "()I" [] _ _ eq_refl).
Defined.

Lemma GetField_own_signature_witness :
  exists m1 m2,
    jni.GetField demo.vm Tjstring demo.widget "name"
      (Some "Ljava/lang/String;") = Some m1 /\
    jni.GetField demo.vm Tjstring demo.widget "name" None = Some m2 /\
    m1 (demo.start 2) = m2 (demo.start 2).
Proof.
  destruct (proj1 (GetField_own_signature demo.vm Tjstring
                     "Ljava/lang/String;" eq_refl eq_refl)
              demo.widget "name") as (m1 & m2 & H1 & H2 & H).
  exists m1, m2. split; [exact H1 |]. split; [exact H2 | apply H].
Defined.

Lemma failed_lookup_stops_witness :
  exists m,
    jni.CallMethod demo.vm Tjint demo.widget "nope" "(Ljava/lang/String;)I"
      [a_cstr (Some "hi")] = Some m /\
    trace (m (demo.start 2)) =
      [EvGetObjectClass demo.widget;
       EvGetID Instance Method demo.Widget "nope" "(Ljava/lang/String;)I";
       EvExceptionCheck; EvExceptionOccurred; EvExceptionDescribe;
       EvExceptionClear; EvDeleteLocalRef demo.Widget].
Proof.
  eexists. split; [reflexivity |].
  apply (proj1 (failed_lookup_stops demo.vm) Tjint demo.widget "nope"
           "(Ljava/lang/String;)I" [a_cstr (Some "hi")] _ (demo.start 2)
           eq_refl).
  discriminate.
Defined.

Lemma call_without_arguments_witness :
  exists m,
    jni.CallMethod demo.vm Tjint demo.widget "size" "()I" [] = Some m /\
    outcome (m (demo.start 2)) = Return (Val Tjint 7) /\
    trace (m (demo.start 2)) =
      [EvGetObjectClass demo.widget;
       EvGetID Instance Method demo.Widget "size" "()I"; EvExceptionCheck;
       EvCallMethod Instance FInt demo.widget 201%Z; EvExceptionCheck;
       EvDeleteLocalRef demo.Widget].
Proof.
  apply (proj1 (call_without_arguments demo.vm Tjint "I" FInt eq_refl)
           demo.widget "size" "()I" (demo.start 2)); reflexivity.
Defined.

(** The packer's [NewStringUTF] finds no room: the method is invoked all the
    same, and the call fails with the packer's fault. *)
Lemma call_with_arguments_witness :
  exists m,
    jni.CallMethod demo.vm Tjint demo.widget "size" "()I"
      [a_cstr (Some "hi")] = Some m /\
    outcome (m (demo.start 0)) = Throw (ForeignFault demo.OutOfMemoryError) /\
    trace (m (demo.start 0)) =
      [EvGetObjectClass demo.widget;
       EvGetID Instance Method demo.Widget "size" "()I"; EvExceptionCheck;
       EvNewStringUTF "hi";
       EvCallMethodA Instance FInt demo.widget 201%Z [jv_l nullptr];
       EvExceptionCheck; EvExceptionOccurred; EvExceptionDescribe;
       EvExceptionClear; EvDeleteLocalRef demo.Widget].
Proof.
  apply (call_with_arguments demo.vm Tjint "I" FInt eq_refl
           demo.widget "size" "()I" (a_cstr (Some "hi")) [] (demo.start 0)
           [jv_l nullptr]); reflexivity.
Defined.

Lemma NewObject_constructs_witness :
  outcome (jni.NewObject demo.vm "widget/Widget" "()V" [] (demo.start 2))
  = Return 1000%Z /\
  trace (jni.NewObject demo.vm "widget/Widget" "()V" [] (demo.start 2)) =
    [EvFindClass "widget/Widget"; EvExceptionCheck;
     EvGetID Instance Method demo.Widget "<init>" "()V"; EvExceptionCheck;
     EvNewObjectA demo.Widget 203%Z [jv_indeterminate]; EvExceptionCheck;
     EvDeleteLocalRef demo.Widget].
Proof.
  apply (NewObject_constructs demo.vm "widget/Widget" "()V" [] (demo.start 2)
           [jv_indeterminate]); reflexivity.
Defined.

Lemma only_the_class_is_released_witness :
  exists m,
    jni.CallMethod demo.vm Tvoid demo.widget "fail" "(Ljava/lang/String;)V"
      [a_string "hi"] = Some m /\
    List.filter is_delete (trace (m (demo.start 2)))
    = [EvDeleteLocalRef demo.Widget].
Proof.
  eexists. split; [reflexivity |].
  apply (proj1 (only_the_class_is_released demo.vm) Tvoid demo.widget "fail"
           "(Ljava/lang/String;)V" [a_string "hi"] _ (demo.start 2) eq_refl).
Defined.

Lemma GetField_reads_witness :
  exists m,
    jni.GetField demo.vm Tjobject demo.widget "owner"
      (Some "Lwidget/Owner;") = Some m /\
    outcome (m (demo.start 2)) = Return (Val Tjobject 77) /\
    trace (m (demo.start 2)) =
      [EvGetObjectClass demo.widget;
       EvGetID Instance Field demo.Widget "owner" "Lwidget/Owner;";
       EvExceptionCheck;
       EvGetField Instance FObject demo.widget 302%Z; EvExceptionCheck;
       EvDeleteLocalRef demo.Widget].
Proof.
  apply (proj1 (GetField_reads demo.vm Tjobject "Ljava/lang/Object;"
                  eq_refl eq_refl)
           demo.widget "owner" (Some "Lwidget/Owner;") (demo.start 2));
    reflexivity.
Defined.

(** [StringToJString] runs no bridge: when [NewStringUTF] raises, the
    operation returns normally, the fault stays pending, and the unrelated
    [FindClass] that follows, whose own call raises nothing, throws it. *)
Lemma C1_counterexample :
  let r := jni.StringToJString demo.vm "x" (demo.start 0) in
  thrown (vm_NewStringUTF demo.vm (world (demo.start 0)) "x")
  = demo.OutOfMemoryError /\
  demo.OutOfMemoryError <> nullptr /\
  outcome r = Return nullptr /\
  existsb bridge_call (trace r) = false /\
  pending (st r) = demo.OutOfMemoryError /\
  thrown (vm_FindClass demo.vm (world (st r)) "widget/Widget") = nullptr /\
  outcome (jni.FindClass demo.vm "widget/Widget" (st r))
  = Throw (ForeignFault demo.OutOfMemoryError).
Proof. cbn zeta. repeat split. discriminate. Qed.

Lemma C1_witness :
  let s := {| world := world (demo.start 2);
              pending := demo.IllegalStateException |} in
  pending s <> nullptr /\
  outcome (jni.JNI_CHECK_EXCEPTION s)
  = Throw (ForeignFault demo.IllegalStateException) /\
  pending (st (jni.JNI_CHECK_EXCEPTION s)) = nullptr /\
  jni.JNITypeTraits Tvoid = Some ("V", FVoid) /\
  exists m,
    jni.CallMethod demo.vm Tvoid demo.widget "fail" "()V" [a_jint 1]
    = Some m /\
    outcome (m (demo.start 2))
    = Throw (ForeignFault demo.IllegalStateException).
Proof.
  cbn zeta.
  destruct (C1_exception_bridge demo.vm)
    as (Hbridge & _ & _ & _ & _ & _ & _ & _ & _ & _ & _ & Hcall & _).
  split; [discriminate |].
  rewrite (Hbridge _) by discriminate.
  split; [reflexivity |]. split; [reflexivity |]. split; [reflexivity |].
  apply (Hcall Tvoid "V" FVoid demo.widget "fail" "()V" (a_jint 1) []
           (demo.start 2) [jv_i 1] eq_refl eq_refl).
Defined.
